(** * The adaptive region tracker of [video.py]

    A shallow embedding of the yield-sign tracker: the frame buffer and its
    numpy-style slice and point assignments, the region-of-interest objects
    living in a store (they are mutated in place by [punish] and shared
    between the carried-in and the new list), the per-frame step [_process],
    the frame loop [process], and the command-line driver.

    The image-processing backend (binarize, edge, detect), the drawing
    primitives of skimage and the video I/O are external collaborators; they
    enter the development as record fields or class methods. *)

From Stdlib Require Import ZArith Lia Ascii String.
From stdpp Require Import base option list gmap strings.

Local Open Scope Z_scope.

(** ** Exceptions and results *)

(** The Python exceptions the modelled code can raise.  [SystemExit] carries
    the argument of [sys.exit]; [Dangling] stands for the use of a reference
    that the store does not hold, which no Python run can produce. *)
Inductive Exn :=
  | ValueError
  | IndexError
  | KeyError
  | TypeError
  | SystemExit (code : Z)
  | Dangling.

Inductive Result (A : Type) :=
  | Ok (a : A)
  | Raise (e : Exn).
Arguments Ok {A} a.
Arguments Raise {A} e.

Global Instance Result_ret : MRet Result := λ A a, Ok a.
Global Instance Result_bind : MBind Result := λ A B f m,
  match m with
  | Ok a => f a
  | Raise e => Raise e
  end.

Definition of_option {A} (e : Exn) (o : option A) : Result A :=
  match o with
  | Some a => Ok a
  | None => Raise e
  end.

(** ** Arrays *)

(** A two-dimensional array: its shape and its entries.  Entries outside the
    shape are never read by the operations below. *)
Record Img (P : Type) := MkImg {
  im_h : Z;
  im_w : Z;
  im_px : Z → Z → P
}.
Arguments MkImg {P} im_h im_w im_px.
Arguments im_h {P} i.
Arguments im_w {P} i.
Arguments im_px {P} i r c.

(** A sequence of frames of one common shape, as the arrays [buf.original],
    [buf.binary] and [buf.edges] are. *)
Record Video (P : Type) := MkVideo {
  v_h : Z;
  v_w : Z;
  v_frames : list (Z → Z → P)
}.
Arguments MkVideo {P} v_h v_w v_frames.
Arguments v_h {P} v.
Arguments v_w {P} v.
Arguments v_frames {P} v.

(** Bound of a Python slice [a:b] on an axis of length [n]: negative bounds
    count from the end, and everything is clipped to [0, n]. *)
Definition slice_bound (n a : Z) : Z :=
  if a <? 0 then Z.max (a + n) 0 else Z.min a n.

(** Python index [k] on an axis of length [n]: negative indices wrap once,
    anything else out of range is an [IndexError]. *)
Definition norm_index (n k : Z) : option Z :=
  if (0 <=? k) && (k <? n) then Some k
  else if (- n <=? k) && (k <? 0) then Some (k + n)
  else None.

Section Arrays.
Context {P : Type}.

(** [arr[i]] *)
Definition frame_at (arr : Video P) (i : nat) : Result (Img P) :=
  px ← of_option IndexError (v_frames arr !! i);
  Ok (MkImg (v_h arr) (v_w arr) px).

(** The window [lo_r:hi_r, lo_c:hi_c] of an axis pair of shape [(h, w)]:
    the first row and column and the numbers of rows and columns. *)
Definition window (h w lo_r hi_r lo_c hi_c : Z) : Z * Z * Z * Z :=
  let a := slice_bound h lo_r in
  let c := slice_bound w lo_c in
  (a, Z.max 0 (slice_bound h hi_r - a), c, Z.max 0 (slice_bound w hi_c - c)).

Definition in_window (win : Z * Z * Z * Z) (r c : Z) : bool :=
  let '(a, nr, b, nc) := win in
  (a <=? r) && (r <? a + nr) && (b <=? c) && (c <? b + nc).

(** [img[lo_r:hi_r, lo_c:hi_c]] *)
Definition img_slice (img : Img P) (lo_r hi_r lo_c hi_c : Z) : Img P :=
  let '(a, nr, b, nc) := window (im_h img) (im_w img) lo_r hi_r lo_c hi_c in
  MkImg nr nc (λ r c, im_px img (a + r) (b + c)).

(** [arr[i, lo_r:hi_r, lo_c:hi_c]] *)
Definition video_slice (arr : Video P) (i : nat) (lo_r hi_r lo_c hi_c : Z)
  : Result (Img P) :=
  img ← frame_at arr i;
  Ok (img_slice img lo_r hi_r lo_c hi_c).

(** numpy broadcasting of a two-dimensional source into a region of
    [nr] rows and [nc] columns. *)
Definition broadcastable (nr nc : Z) (src : Img P) : bool :=
  ((im_h src =? nr) || (im_h src =? 1)) &&
  ((im_w src =? nc) || (im_w src =? 1)).

Definition broadcast_px (nr nc : Z) (src : Img P) (r c : Z) : P :=
  im_px src (if im_h src =? nr then r else 0) (if im_w src =? nc then c else 0).

Definition write_window (win : Z * Z * Z * Z) (src : Img P) (px : Z → Z → P)
  : Z → Z → P :=
  λ r c,
    if in_window win r c
    then broadcast_px win.1.1.2 win.2 src (r - win.1.1.1) (c - win.1.2)
    else px r c.

(** [arr[i, lo_r:hi_r, lo_c:hi_c] = src] *)
Definition assign_slice (arr : Video P) (i : nat) (lo_r hi_r lo_c hi_c : Z)
    (src : Img P) : Result (Video P) :=
  px ← of_option IndexError (v_frames arr !! i);
  let win := window (v_h arr) (v_w arr) lo_r hi_r lo_c hi_c in
  if broadcastable win.1.1.2 win.2 src
  then Ok (MkVideo (v_h arr) (v_w arr) (<[i := write_window win src px]> (v_frames arr)))
  else Raise ValueError.

(** [arr[i] = src] *)
Definition assign_frame (arr : Video P) (i : nat) (src : Img P)
  : Result (Video P) :=
  px ← of_option IndexError (v_frames arr !! i);
  let win := (0, v_h arr, 0, v_w arr) in
  if broadcastable (v_h arr) (v_w arr) src
  then Ok (MkVideo (v_h arr) (v_w arr) (<[i := write_window win src px]> (v_frames arr)))
  else Raise ValueError.

Definition norm_point (h w : Z) (p : Z * Z) : option (Z * Z) :=
  r ← norm_index h p.1;
  c ← norm_index w p.2;
  Some (r, c).

Definition mem_point (pts : list (Z * Z)) (r c : Z) : bool :=
  existsb (λ p, (p.1 =? r) && (p.2 =? c)) pts.

(** [arr[i, rr, cc] = val], the index arrays given as a list of points. *)
Definition assign_points (arr : Video P) (i : nat) (pts : list (Z * Z))
    (val : P) : Result (Video P) :=
  px ← of_option IndexError (v_frames arr !! i);
  pts' ← of_option IndexError (mapM (norm_point (v_h arr) (v_w arr)) pts);
  Ok (MkVideo (v_h arr) (v_w arr)
        (<[i := λ r c, if mem_point pts' r c then val else px r c]> (v_frames arr))).

(** [frame //= k], on one frame of the array *)
Definition map_frame (f : P → P) (arr : Video P) (i : nat) : Result (Video P) :=
  px ← of_option IndexError (v_frames arr !! i);
  Ok (MkVideo (v_h arr) (v_w arr) (<[i := λ r c, f (px r c)]> (v_frames arr))).
End Arrays.

(** ** Regions of interest *)

Definition ROI_LIFESPAN : Z := 30.

Definition Vec3 : Type := Z * Z * Z.

Definition map3 (f : Z → Z) (v : Vec3) : Vec3 :=
  let '(a, b, c) := v in (f a, f b, f c).

Definition vec3_list (v : Vec3) : list Z :=
  let '(a, b, c) := v in [a; b; c].

Definition vec3_head (v : Vec3) : Z := v.1.1.

(** Modelled from the spec: the class [video.ROI] is not among the sources.
    An object keeps what its constructor [ROI(w, h, y, x, vy, vx, health)]
    receives (frame extent, barycenter, the three vertices, health) and the
    four bounds [r0, r1, c0, c1] of its bounding box. *)
Record ROI := MkROI {
  roi_extent : Z * Z;
  roi_center : Z * Z;
  r0 : Z;
  r1 : Z;
  c0 : Z;
  c1 : Z;
  vy : Vec3;
  vx : Vec3;
  health : Z
}.

(** Modelled from the spec: the region is dead when its health is 0. *)
Definition ROI_dead (roi : ROI) : bool := health roi =? 0.

(** Modelled from the spec: punishment decrements the health by one. *)
Definition ROI_punish (roi : ROI) : ROI :=
  MkROI (roi_extent roi) (roi_center roi) (r0 roi) (r1 roi) (c0 roi) (c1 roi)
        (vy roi) (vx roi) (health roi - 1).

(** Modelled from the spec: overlap of the two bounding boxes as rectangles,
    with strict inequalities, so that touching edges do not overlap. *)
Definition ROI_intersects (a b : ROI) : bool :=
  (r0 a <? r1 b) && (r0 b <? r1 a) && (c0 a <? c1 b) && (c0 b <? c1 a).

(** The parts of the collaborators that the tracker calls but the sources
    do not contain. *)
Class VideoLib := {
  (** the bounding box [(r0, r1, c0, c1)] that [ROI.__init__] derives from
      the frame extent, the barycenter and the vertices *)
  bounding_box : Z → Z → Z → Z → Vec3 → Vec3 → Z * Z * Z * Z
}.

(** skimage.draw: each function returns the pixels it selects.  The two
    functions that take a shape return pixels inside it only. *)
Class Skimage := {
  polygon_perimeter : list Z → list Z → Z * Z → list (Z * Z);
  circle : Z → Z → Z → Z * Z → list (Z * Z);
  circle_perimeter : Z → Z → Z → list (Z * Z)
}.

(** A pixel type knows the value that the array stores for the product
    [val * (roi.health / ROI_LIFESPAN)] of a marker value and the health
    ratio. *)
Class Pixel (P : Type) := {
  px_decay : P → Z → P
}.

Definition Color : Type := Z * Z * Z.

Definition color_floordiv (k : Z) (p : Color) : Color :=
  let '(r, g, b) := p in (r `div` k, g `div` k, b `div` k).

Definition ROI_init `{VideoLib} (w h y x : Z) (vy vx : Vec3) (health : Z) : ROI :=
  let '(a, b, c, d) := bounding_box w h y x vy vx in
  MkROI (w, h) (y, x) a b c d vy vx health.

(** ** Pipeline, buffer and program state *)

Section Tracker.
Context {K : Type} `{Countable K}.
Context `{VideoLib} `{Skimage} `{Pixel Z} `{Pixel Color}.

(** points of interest: [pois[a][b]] is a (row, column) pair *)
Definition Pois : Type := gmap K (gmap K (Z * Z)).

(** what [detect] reports: a (keys, barycenter) pair per detection, in the
    order in which the program iterates over them *)
Definition Barycenters : Type := list ((K * K * K) * (Z * Z)).

(** Modelled from the spec: the class [video.Pipeline] is not among the
    sources.  Its two flags are set once by the constructor; its three
    stages are deterministic functions without effect on the tracker. *)
Record Pipeline := MkPipeline {
  pipe_binary : bool;
  pipe_edges : bool;
  pipe_binarize : Img Color → Img Z;
  pipe_edge : Img Z → Img Z;
  pipe_detect : Img Z → Img Z → Barycenters * Pois
}.

(** Modelled from the spec: the class [video.Buffer] is not among the
    sources.  Three index-aligned frame sequences. *)
Record Buffer := MkBuffer {
  buf_original : Video Color;
  buf_binary : Video Z;
  buf_edges : Video Z
}.

(** Calls that the tracker makes, in order: the two scans as they are
    entered and the pipeline stages with the arrays they receive. *)
Inductive Event :=
  | EvScanFull (i : nat)
  | EvScanRoi (i : nat) (r : nat)
  | EvBinarize (frame : Img Color)
  | EvEdge (segments : Img Z)
  | EvDetect (edges segments : Img Z).

(** The store of ROI objects (a reference is an index into it), the frame
    buffer and the calls made so far. *)
Record State := MkState {
  heap : list ROI;
  buf : Buffer;
  trace : list Event
}.

Definition M (A : Type) : Type := State → Result (A * State).

Global Instance M_ret : MRet M := λ A a st, Ok (a, st).
Global Instance M_bind : MBind M := λ A B f m st,
  match m st with
  | Ok (a, st') => f a st'
  | Raise e => Raise e
  end.

Definition lift {A} (m : Result A) : M A := λ st,
  match m with
  | Ok a => Ok (a, st)
  | Raise e => Raise e
  end.

Definition get_buf : M Buffer := λ st, Ok (buf st, st).
Definition set_original (v : Video Color) : M () := λ st,
  Ok ((), MkState (heap st) (MkBuffer v (buf_binary (buf st)) (buf_edges (buf st))) (trace st)).
Definition set_binary (v : Video Z) : M () := λ st,
  Ok ((), MkState (heap st) (MkBuffer (buf_original (buf st)) v (buf_edges (buf st))) (trace st)).
Definition set_edges (v : Video Z) : M () := λ st,
  Ok ((), MkState (heap st) (MkBuffer (buf_original (buf st)) (buf_binary (buf st)) v) (trace st)).
Definition emit (e : Event) : M () := λ st,
  Ok ((), MkState (heap st) (buf st) (trace st ++ [e])).

(** reading an object through a reference *)
Definition deref (r : nat) : M ROI := λ st,
  match heap st !! r with
  | Some roi => Ok (roi, st)
  | None => Raise Dangling
  end.
(** a constructor call: the new object gets the next free reference *)
Definition alloc (roi : ROI) : M nat := λ st,
  Ok (length (heap st), MkState (heap st ++ [roi]) (buf st) (trace st)).
(** a method call that mutates the object in place *)
Definition mutate (r : nat) (f : ROI → ROI) : M () := λ st,
  match heap st !! r with
  | Some roi => Ok ((), MkState (<[r := f roi]> (heap st)) (buf st) (trace st))
  | None => Raise Dangling
  end.

(** [for x in l: acc = body x acc] *)
Fixpoint for_each {A B} (l : list A) (body : A → B → M B) (acc : B) : M B :=
  match l with
  | [] => mret acc
  | x :: l' => acc' ← body x acc; for_each l' body acc'
  end.

(** ** Drawing *)

Definition closed3 (v : Vec3) : list Z := vec3_list v ++ [vec3_head v].

(** [_draw_vertices(frame, roi)], where [frame] is the view [arr[i]] *)
Definition _draw_vertices (arr : Video Color) (i : nat) (roi : ROI)
  : Result (Video Color) :=
  let pts := polygon_perimeter (closed3 (vy roi)) (closed3 (vx roi))
               (v_h arr, v_w arr) in
  assign_points arr i pts ((255 * health roi) `quot` ROI_LIFESPAN, 0, 0).

(** [_draw_roi(arr, i, roi, val)] *)
Definition _draw_roi {P} `{Pixel P} (arr : Video P) (i : nat) (roi : ROI)
    (val : P) : Result (Video P) :=
  let y0 := r0 roi - 1 in
  let y1 := r1 roi in
  let x0 := c0 roi - 1 in
  let x1 := c1 roi in
  let shape := (v_h arr, v_w arr) in
  arr ← assign_points arr i
          (polygon_perimeter [y0; y0; y1; y1; y0] [x0; x1; x1; x0; x0] shape) val;
  arr ← assign_points arr i (circle y0 x0 5 shape) (px_decay val (health roi));
  assign_points arr i (circle_perimeter y0 x0 5) val.

(** ** Detections to regions *)

Definition pois_get (pois : Pois) (a b : K) : Result (Z * Z) :=
  of_option KeyError (row ← pois !! a; row !! b).

Definition _get_vertices (keys : K * K * K) (pois : Pois) : Result (Vec3 * Vec3) :=
  let '(p0, p1, p2) := keys in
  a ← pois_get pois p0 p1;
  b ← pois_get pois p0 p2;
  c ← pois_get pois p1 p2;
  Ok ((a.1, b.1, c.1), (a.2, b.2, c.2)).

(** The second and third entry of [buf.original.shape], which the program
    calls [w] and [h]. *)
Definition extent (b : Buffer) : Z * Z :=
  (v_h (buf_original b), v_w (buf_original b)).

Definition _find_rois (barycenters : Barycenters) (pois : Pois) : M (list nat) :=
  b ← get_buf;
  let '(w, h) := extent b in
  for_each barycenters
    (λ '(keys, (y, x)) rois,
       '(vy, vx) ← lift (_get_vertices keys pois);
       r ← alloc (ROI_init w h y x vy vx ROI_LIFESPAN);
       mret (rois ++ [r]))
    [].

(** ** The two scans *)

Definition _scan_full (frame : Img Color) (i : nat) (pipe : Pipeline)
  : M (list nat) :=
  emit (EvScanFull i);;
  emit (EvBinarize frame);;
  let segments := pipe_binarize pipe frame in
  b ← get_buf;
  bin ← lift (assign_frame (buf_binary b) i segments);
  set_binary bin;;
  if pipe_binary pipe && negb (pipe_edges pipe) then mret []
  else
    emit (EvEdge segments);;
    let edges := pipe_edge pipe segments in
    b ← get_buf;
    ed ← lift (assign_frame (buf_edges b) i edges);
    set_edges ed;;
    if pipe_edges pipe then mret []
    else
      emit (EvDetect edges segments);;
      let '(barycenters, pois) := pipe_detect pipe edges segments in
      _find_rois barycenters pois.

Definition _scan_roi (frame : Img Color) (i : nat) (pipe : Pipeline) (r : nat)
  : M (Barycenters * Pois) :=
  emit (EvScanRoi i r);;
  roi ← deref r;
  let sub := img_slice frame (r0 roi) (r1 roi) (c0 roi) (c1 roi) in
  emit (EvBinarize sub);;
  b ← get_buf;
  bin ← lift (assign_slice (buf_binary b) i (r0 roi) (r1 roi) (c0 roi) (c1 roi)
                (pipe_binarize pipe sub));
  bin ← lift (_draw_roi bin i roi 255);
  set_binary bin;;
  segments ← lift (video_slice bin i (r0 roi) (r1 roi) (c0 roi) (c1 roi));
  emit (EvEdge segments);;
  b ← get_buf;
  ed ← lift (assign_slice (buf_edges b) i (r0 roi) (r1 roi) (c0 roi) (c1 roi)
               (pipe_edge pipe segments));
  ed ← lift (_draw_roi ed i roi 255);
  set_edges ed;;
  edges ← lift (video_slice ed i (r0 roi) (r1 roi) (c0 roi) (c1 roi));
  segments ← lift (video_slice bin i (r0 roi) (r1 roi) (c0 roi) (c1 roi));
  emit (EvDetect edges segments);;
  mret (pipe_detect pipe edges segments).

(** ** Merging *)

(** the objects behind a list of references *)
Definition deref_all (rs : list nat) : M (list ROI) := λ st,
  match mapM (λ r, heap st !! r) rs with
  | Some rois => Ok (rois, st)
  | None => Raise Dangling
  end.

Definition _merge_rois (w h : Z) (r : nat) (barycenter : (K * K * K) * (Z * Z))
    (pois : Pois) (new_rois : list nat) : M (list nat) :=
  let '(keys, (y, x)) := barycenter in
  '(vy, vx) ← lift (_get_vertices keys pois);
  roi ← deref r;
  let vy := map3 (λ y, r0 roi + y) vy in
  let vx := map3 (λ x, c0 roi + x) vx in
  let new_roi := ROI_init w h y x vy vx ROI_LIFESPAN in
  new ← alloc new_roi;
  accepted ← deref_all new_rois;
  if existsb (ROI_intersects new_roi) accepted then mret new_rois
  else mret (new_rois ++ [new]).

(** ** One frame *)

(** the body of the loop [for roi in rois] *)
Definition roi_step (frame : Img Color) (i : nat) (pipe : Pipeline) (w h : Z)
    (r : nat) (new_rois : list nat) : M (list nat) :=
  '(barycenters, pois) ← _scan_roi frame i pipe r;
  match barycenters with
  | first :: _ => _merge_rois w h r first pois new_rois
  | [] =>
      roi ← deref r;
      if negb (ROI_dead roi)
      then mutate r ROI_punish;; mret (new_rois ++ [r])
      else mret new_rois
  end.

(** the body of the loop [for roi in new_rois] *)
Definition draw_step (i : nat) (r : nat) (_ : ()) : M () :=
  roi ← deref r;
  b ← get_buf;
  orig ← lift (_draw_vertices (buf_original b) i roi);
  orig ← lift (_draw_roi orig i roi (255, 255, 255));
  set_original orig.

(** [_process(buf, frame, i, pipe, rois)], where [frame] is the view
    [buf.original[i]] that the iteration over the buffer hands out. *)
Definition _process (i : nat) (pipe : Pipeline) (rois : list nat) : M (list nat) :=
  b ← get_buf;
  frame ← lift (frame_at (buf_original b) i);
  let '(w, h) := extent b in
  let rescan := (i `mod` 15 =? 0)%nat in
  let no_rois := (length rois =? 0)%nat in
  new_rois ← (if rescan || no_rois
              then found ← _scan_full frame i pipe; mret ([] ++ found)
              else mret []);
  new_rois ← for_each rois (roi_step frame i pipe w h) new_rois;
  b ← get_buf;
  orig ← lift (map_frame (color_floordiv 3) (buf_original b) i);
  set_original orig;;
  for_each new_rois (draw_step i) ();;
  mret new_rois.
End Tracker.

Arguments Pois K {_ _}.
Arguments Barycenters : clear implicits.
Arguments Pipeline K {_ _}.

(** ** The frame loop *)

(** What the program collects in [stats]: the length of the carried-in
    list, or a dot when that list is empty. *)
Inductive Stat :=
  | StatCount (n : nat)
  | StatDot.

(** The pipeline stages that [video.Pipeline] sets up from a configuration
    ([None] when no configuration file was given). *)
Class Backend (K Config : Type) `{Countable K} := {
  backend_binarize : option Config → Img Color → Img Z;
  backend_edge : option Config → Img Z → Img Z;
  backend_detect : option Config → Img Z → Img Z → Barycenters K * Pois K
}.

Section Run.
Context {K Config : Type} `{Backend K Config}.
Context `{VideoLib} `{Skimage} `{Pixel Z} `{Pixel Color}.

(** Modelled from the spec: [video.Pipeline(config, binary, edges)] keeps
    the two flags and runs the stages that the configuration selects. *)
Definition Pipeline_init (config : option Config) (binary edges : bool)
  : Pipeline K :=
  MkPipeline binary edges (backend_binarize config) (backend_edge config)
             (backend_detect config).

Definition zeros_like (vid : Video Color) : Video Z :=
  MkVideo (v_h vid) (v_w vid) (replicate (length (v_frames vid)) (λ _ _, 0)).

(** Modelled from the spec: [video.Buffer(vid)] takes the loaded video as
    [original] and zero-filled arrays of the same extent as [binary] and
    [edges]; iterating over it yields each index with the view
    [original[i]], for [framecount] frames. *)
Definition Buffer_init (vid : Video Color) : Buffer :=
  MkBuffer vid (zeros_like vid) (zeros_like vid).

Definition framecount (b : Buffer) : nat := length (v_frames (buf_original b)).

Definition stat_of (rois : list nat) : Stat :=
  if (0 <? length rois)%nat then StatCount (length rois) else StatDot.

(** the body of the loop over the frames *)
Definition frame_step (pipe : Pipeline K) (i : nat) (acc : list nat * list Stat)
  : M (list nat * list Stat) :=
  let '(rois, stats) := acc in
  let stats := stats ++ [stat_of rois] in
  rois ← _process i pipe rois;
  mret (rois, stats).

(** the pipeline that [process] builds from its arguments *)
Definition process_pipe (only : bool * bool) (config : option Config)
  : Pipeline K :=
  let '(only_binary, only_edges) := only in
  let only_binary := only_edges || only_binary in
  Pipeline_init config only_binary only_edges.

Definition init_state (vid : Video Color) : State :=
  MkState [] (Buffer_init vid) [].

(** The first [n] iterations of the loop of [process], from the state in
    which the loop starts: the active list and the statistics after them,
    with the store, the buffer and the calls made. *)
Definition run_frames (vid : Video Color) (only : bool * bool)
    (config : option Config) (n : nat)
  : Result ((list nat * list Stat) * State) :=
  for_each (seq 0 n) (frame_step (process_pipe only config)) ([], [])
           (init_state vid).

Definition process (vid : Video Color) (only : bool * bool)
    (config : option Config) : Result Buffer :=
  '(_, st) ← run_frames vid only config (length (v_frames vid));
  Ok (buf st).
End Run.

(** ** The command line *)

(** The namespace that [argparse] hands to the script.  [--config] takes one
    value and has no default: [config] is [None] when the option is absent
    and a one-element list otherwise. *)
Record Args := MkArgs {
  f_in : string;
  f_out : string;
  config : option (list string);
  binary : bool;
  edges : bool;
  save_all : bool
}.

(** The checks of [parse_args] on the parsed namespace. *)
Definition parse_args (ns : Args) : Result Args :=
  if binary ns && edges ns then Raise (SystemExit 2)
  else if save_all ns && (binary ns || edges ns) then Raise (SystemExit 2)
  else Ok ns.

(** The outside world of one invocation: what reading a configuration file
    into the global parser gives, whether the parser then has a section
    [options], and what [skvideo.io.vread] returns for a file name (the last
    entry of the shape and the frames). *)
Class World (Config : Type) := {
  cfg_read : string → Config;
  cfg_has_options : Config → bool;
  vread : string → Result (Z * Video Color)
}.

(** a call of [skvideo.io.vwrite]: the file name and the array written *)
Inductive Saved :=
  | SavedOriginal (fname : string) (vid : Video Color)
  | SavedMask (fname : string) (vid : Video Z).

(** [s.rsplit('.', maxsplit=1)]: the parts before and after the last dot,
    if there is one. *)
Fixpoint rsplit_dot (s : string) : option (string * string) :=
  match s with
  | EmptyString => None
  | String c s' =>
      match rsplit_dot s' with
      | Some (stem, ext) => Some (String c stem, ext)
      | None => if Ascii.eqb c "."%char then Some (EmptyString, s') else None
      end
  end.

(** The file name that [_save] builds for an intermediate result: [tag] is
    inserted before the last part of the split name, and the parts are
    joined by dots. *)
Definition tagged (fname tag : string) : string :=
  match rsplit_dot fname with
  | Some (stem, ext) => stem +:+ "." +:+ tag +:+ "." +:+ ext
  | None => tag +:+ "." +:+ fname
  end.

(** What the process reports to its parent: 0 when the script runs to its
    end, the argument of [sys.exit], and 1 for an exception nobody catches. *)
Definition exit_status {A} (r : Result A) : Z :=
  match r with
  | Ok _ => 0
  | Raise (SystemExit code) => code
  | Raise _ => 1
  end.

Section Script.
Context {K Config : Type} `{Backend K Config} `{World Config}.
Context `{VideoLib} `{Skimage} `{Pixel Z} `{Pixel Color}.

Definition load (fname : string) : Result (Video Color) :=
  '(depth, vid) ← vread fname;
  if negb (depth =? 3) then Raise (SystemExit 2) else Ok vid.

(** [len(args.config) > 0] and the lines under it; the result is the
    value of [cfg if args.config else None]. *)
Definition read_config (args : Args) : Result (option Config) :=
  match config args with
  | None => Raise TypeError
  | Some [] => Ok None
  | Some (path :: _) =>
      let cfg := cfg_read path in
      if negb (cfg_has_options cfg) then Raise (SystemExit 2) else Ok (Some cfg)
  end.

Definition _save (b : Buffer) (args : Args) : list Saved :=
  if save_all args then
    [SavedMask (tagged (f_out args) "binary") (buf_binary b);
     SavedMask (tagged (f_out args) "edges") (buf_edges b);
     SavedOriginal (f_out args) (buf_original b)]
  else if edges args then [SavedMask (f_out args) (buf_edges b)]
  else if binary args then [SavedMask (f_out args) (buf_binary b)]
  else [SavedOriginal (f_out args) (buf_original b)].

Definition main (args : Args) : Result (list Saved) :=
  cfg ← read_config args;
  vid ← load (f_in args);
  b ← process (K := K) vid (binary args, edges args) cfg;
  Ok (_save b args).

(** the script: [args = parse_args(); main(args)] *)
Definition script (ns : Args) : Result (list Saved) :=
  args ← parse_args ns;
  main args.
End Script.

(** ** A concrete setting

    Instances of the collaborators on which the model can be run: the
    drawing primitives as skimage computes them, a bounding box with a fixed
    margin around the barycenter, a threshold backend whose detections are
    selected by the configuration, and a small video. *)

Module Sample.

Definition inside (shape : Z * Z) (p : Z * Z) : bool :=
  (0 <=? p.1) && (p.1 <? shape.1) && (0 <=? p.2) && (p.2 <? shape.2).

(** the loop of Bresenham's line, [n] pixels long *)
Fixpoint line_loop (n : nat) (steep : bool) (r c d dr dc sr sc : Z)
  : list (Z * Z) :=
  match n with
  | O => []
  | S n' =>
      (if steep then (c, r) else (r, c)) ::
      (if 0 <=? d
       then line_loop n' steep (r + sr) (c + sc) (d - 2 * dc + 2 * dr) dr dc sr sc
       else line_loop n' steep r (c + sc) (d + 2 * dr) dr dc sr sc)
  end.

Definition line (ra ca rb cb : Z) : list (Z * Z) :=
  let dr := Z.abs (rb - ra) in
  let dc := Z.abs (cb - ca) in
  let sc := if 0 <? cb - ca then 1 else -1 in
  let sr := if 0 <? rb - ra then 1 else -1 in
  (if dc <? dr
   then line_loop (Z.to_nat dr) true ca ra (2 * dc - dr) dc dr sc sr
   else line_loop (Z.to_nat dc) false ra ca (2 * dr - dc) dr dc sr sc)
  ++ [(rb, cb)].

Fixpoint polygon_lines (rs cs : list Z) : list (Z * Z) :=
  match rs, cs with
  | ra :: ((rb :: _) as rs'), ca :: ((cb :: _) as cs') =>
      line ra ca rb cb ++ polygon_lines rs' cs'
  | _, _ => []
  end.

Definition sample_polygon_perimeter (rs cs : list Z) (shape : Z * Z)
  : list (Z * Z) :=
  List.filter (inside shape) (polygon_lines rs cs).

Definition sample_circle (y x radius : Z) (shape : Z * Z) : list (Z * Z) :=
  let side := seqZ (- radius) (2 * radius + 1) in
  List.filter
    (λ p, inside shape p &&
          ((p.1 - y) * (p.1 - y) + (p.2 - x) * (p.2 - x) <? radius * radius))
    (r ← side; c ← side; [(y + r, x + c)]).

(** the loop of Bresenham's circle: the eight symmetric pixels per step *)
Fixpoint circle_loop (n : nat) (y x r c d : Z) : list (Z * Z) :=
  match n with
  | O => []
  | S n' =>
      if r <? c then []
      else
        [(y + r, x + c); (y - r, x + c); (y + r, x - c); (y - r, x - c);
         (y + c, x + r); (y - c, x + r); (y + c, x - r); (y - c, x - r)] ++
        (if d <? 0
         then circle_loop n' y x r (c + 1) (d + 4 * c + 6)
         else circle_loop n' y x (r - 1) (c + 1) (d + 4 * (c - r) + 10))
  end.

Definition sample_circle_perimeter (y x radius : Z) : list (Z * Z) :=
  circle_loop (Z.to_nat radius + 1) y x radius 0 (3 - 2 * radius).

Definition skimage : Skimage :=
  {| polygon_perimeter := sample_polygon_perimeter;
     circle := sample_circle;
     circle_perimeter := sample_circle_perimeter |}.

(** a box of three pixels around the barycenter, clipped to the extent *)
Definition margin_box (w h y x : Z) (vy vx : Vec3) : Z * Z * Z * Z :=
  (Z.max 0 (y - 3), Z.min w (y + 3), Z.max 0 (x - 3), Z.min h (x + 3)).

Definition videolib : VideoLib := {| bounding_box := margin_box |}.

(** the product with the health ratio, cut to an integer; at full health
    it is the marker value itself *)
Definition gray : Pixel Z :=
  {| px_decay := λ val h, (val * h) `quot` ROI_LIFESPAN |}.

Definition color : Pixel Color :=
  {| px_decay := λ val h,
       let '(r, g, b) := val in
       ((r * h) `quot` ROI_LIFESPAN, (g * h) `quot` ROI_LIFESPAN,
        (b * h) `quot` ROI_LIFESPAN) |}.

(** a threshold on the red channel *)
Definition threshold (img : Img Color) : Img Z :=
  MkImg (im_h img) (im_w img)
        (λ r c, if 127 <? (im_px img r c).1.1 then 255 else 0).

Definition triangle : Pois nat :=
  {[ 0%nat := {[ 1%nat := (1, 3); 2%nat := (5, 1) ]};
     1%nat := {[ 2%nat := (5, 5) ]} ]}.

Definition keys : nat * nat * nat := (0%nat, 1%nat, 2%nat).

(** The detections of the sample backend under configuration [n]:
    - 1: one sign around (10, 10), seen on whole frames only;
    - 2: two signs around (10, 10) and (11, 11), seen on whole frames only;
    - 3: one sign around (3, 3) of whatever array is scanned;
    - otherwise none. *)
Definition sample_detect (cfg : option nat) (e s : Img Z)
  : Barycenters nat * Pois nat :=
  let whole := (im_h e =? 20) && (im_w e =? 20) in
  match cfg with
  | Some 1%nat => if whole then ([(keys, (10, 10))], triangle) else ([], ∅)
  | Some 2%nat =>
      if whole then ([(keys, (10, 10)); (keys, (11, 11))], triangle) else ([], ∅)
  | Some 3%nat => ([(keys, (3, 3))], triangle)
  | _ => ([], ∅)
  end.

Definition backend : Backend nat nat :=
  {| backend_binarize := λ _, threshold;
     backend_edge := λ _ img, img;
     backend_detect := sample_detect |}.

Definition red : Color := (200, 10, 10).
Definition dark : Color := (10, 10, 10).

(** [n] frames of 20 by 20 pixels, all of one colour *)
Definition video (n : nat) (p : Color) : Video Color :=
  MkVideo 20 20 (replicate n (λ _ _, p)).

Definition still (p : Color) : Img Color := MkImg 20 20 (λ _ _, p).

(** a region with the given box and health, for states set by hand *)
Definition region (a b c d hp : Z) : ROI :=
  MkROI (20, 20) (a + 3, c + 3) a b c d (1, 5, 5) (3, 1, 5) hp.

(** the state in which a one-frame video has one region, around (10, 10),
    with the given health *)
Definition tracked (p : Color) (hp : Z) : State :=
  MkState [region 7 13 7 13 hp] (Buffer_init (video 1 p)) [].

(** the pipeline of a full run under configuration [n] *)
Definition pipe (n : nat) : Pipeline nat :=
  process_pipe (H0 := backend) (false, false) (Some n).

Definition plain_args : Args :=
  MkArgs "in.mp4" "out.mp4" None false false false.


Definition world : World nat :=
  {| cfg_read := λ _, 0%nat;
     cfg_has_options := λ _, true;
     vread := λ _, Ok (3, video 2 red) |}.

End Sample.

(** ** Vocabulary of the statements *)

(** The scans among the calls of a trace. *)
Inductive Scan :=
  | FullScan (i : nat)
  | RoiScan (i : nat) (r : nat).

Definition scan_of (e : Event) : option Scan :=
  match e with
  | EvScanFull i => Some (FullScan i)
  | EvScanRoi i r => Some (RoiScan i r)
  | _ => None
  end.

Definition scans (t : list Event) : list Scan := omap scan_of t.

(** the condition under which [_process] runs the full scan *)
Definition rescans (i : nat) (rois : list nat) : bool :=
  (i `mod` 15 =? 0)%nat || (length rois =? 0)%nat.

(** the two short-circuit modes of a pipeline *)
Definition binary_only {K} `{Countable K} (pipe : Pipeline K) : bool :=
  pipe_binary pipe && negb (pipe_edges pipe).

Definition edges_only {K} `{Countable K} (pipe : Pipeline K) : bool :=
  pipe_edges pipe.

Definition bounded (roi : ROI) : Prop := 0 ≤ health roi ≤ ROI_LIFESPAN.

(** calls that belong to the tracking of a region: a restricted scan or a
    detection *)
Definition tracking_call (e : Event) : bool :=
  match e with
  | EvScanRoi _ _ | EvDetect _ _ => true
  | _ => false
  end.

(** every reference of the list denotes an object of the store *)
Definition well_stored (hp : list ROI) (rs : list nat) : Prop :=
  Forall (λ r, (r < length hp)%nat) rs.

(** What a frame step guarantees about the store, relative to the store
    [hp] with which the frame started. *)
Record frame_inv (hp : list ROI) (acc : list nat) (st : State) : Prop := {
  inv_grows : (length hp ≤ length (heap st))%nat;
  inv_bounded : Forall bounded (heap st);
  inv_stored : well_stored (heap st) acc;
  inv_decays : ∀ r roi, hp !! r = Some roi →
      ∃ roi', heap st !! r = Some roi' ∧ health roi' ≤ health roi;
  inv_fresh : ∀ r roi', (length hp ≤ r)%nat → heap st !! r = Some roi' →
      health roi' = ROI_LIFESPAN
}.


(** the pixels that [_draw_roi] selects on a frame of shape [(h, w)]: the
    perimeter of the rectangle, the disc and the circle *)
Definition marker `{Skimage} (h w : Z) (roi : ROI) : list (Z * Z) :=
  let y0 := r0 roi - 1 in
  let y1 := r1 roi in
  let x0 := c0 roi - 1 in
  let x1 := c1 roi in
  polygon_perimeter [y0; y0; y1; y1; y0] [x0; x1; x1; x0; x0] (h, w)
  ++ circle y0 x0 5 (h, w)
  ++ circle_perimeter y0 x0 5.

(** whether the marker of [roi] covers the pixel [(r, c)] of such a frame *)
Definition stamped `{Skimage} (h w : Z) (roi : ROI) (r c : Z) : bool :=
  mem_point (omap (norm_point h w) (marker h w roi)) r c.

(** the arrays that a trace shows as the input of [binarize] and of [edge] *)
Definition binarize_inputs (t : list Event) : list (Img Color) :=
  omap (λ e, match e with EvBinarize frame => Some frame | _ => None end) t.

Definition edge_inputs (t : list Event) : list (Img Z) :=
  omap (λ e, match e with EvEdge seg => Some seg | _ => None end) t.

(** what a piece of monadic code returns from a given state, and the state
    it leaves (the empty state if it raises) *)
Definition returned {A} (r : Result (A * State)) : option A :=
  match r with
  | Ok (a, _) => Some a
  | Raise _ => None
  end.

Definition empty_state : State :=
  MkState [] (MkBuffer (MkVideo 0 0 []) (MkVideo 0 0 []) (MkVideo 0 0 [])) [].

Definition state_after {A} (r : Result (A * State)) : State :=
  match r with
  | Ok (_, st) => st
  | Raise _ => empty_state
  end.

(** What one call of a trace does to the healths of the store, given the
    scan that is running ([None] for the full scan, the scanned reference
    for a restricted scan): a detection call of the full scan adds one
    region of full health per detection; a detection call of a restricted
    scan adds one region of full health, the replacement, when it reports a
    detection, and otherwise lowers the health of the scanned region by
    one unless that health is 0; no other call changes a health. *)
Definition health_step {K} `{Countable K} (pipe : Pipeline K)
    (s : option nat * list Z) (e : Event) : option nat * list Z :=
  match e with
  | EvScanFull _ => (None, s.2)
  | EvScanRoi _ r => (Some r, s.2)
  | EvDetect edges segments =>
      let found := (pipe_detect pipe edges segments).1 in
      match s.1 with
      | None => (None, s.2 ++ replicate (length found) ROI_LIFESPAN)
      | Some r =>
          match found with
          | _ :: _ => (Some r, s.2 ++ [ROI_LIFESPAN])
          | [] =>
              (Some r,
               match s.2 !! r with
               | Some hp => if hp =? 0 then s.2 else <[r := hp - 1]> s.2
               | None => s.2
               end)
          end
      end
  | _ => s
  end.

(** the healths after the calls [evs] of a frame, from the healths [hs]
    with which the frame starts *)
Definition replay_health {K} `{Countable K} (pipe : Pipeline K)
    (evs : list Event) (hs : list Z) : list Z :=
  (fold_left (health_step pipe) evs (None, hs)).2.

(** [v'] differs from [v] in frame [i] at most: same shape, same number of
    frames, same frames at the other indices *)
Definition only_frame {P} (i : nat) (v v' : Video P) : Prop :=
  v_h v' = v_h v ∧ v_w v' = v_w v ∧
  length (v_frames v') = length (v_frames v) ∧
  ∀ j, j ≠ i → v_frames v' !! j = v_frames v !! j.

Definition frame_local (i : nat) (b b' : Buffer) : Prop :=
  only_frame i (buf_original b) (buf_original b') ∧
  only_frame i (buf_binary b) (buf_binary b') ∧
  only_frame i (buf_edges b) (buf_edges b').

(** the frames of [v'] from index [n] on are those of [v], and the two
    arrays have the same shape and number of frames *)
Definition raw_from {P} (n : nat) (v v' : Video P) : Prop :=
  v_h v' = v_h v ∧ v_w v' = v_w v ∧
  length (v_frames v') = length (v_frames v) ∧
  ∀ j, (n ≤ j)%nat → v_frames v' !! j = v_frames v !! j.

(** the two arrays have the same height, width and number of frames *)
Definition same_extent {P Q} (v : Video P) (v' : Video Q) : Prop :=
  v_h v' = v_h v ∧ v_w v' = v_w v ∧
  length (v_frames v') = length (v_frames v).

(** the array of a saved file has the extent of [vid] *)
Definition saved_extent (vid : Video Color) (s : Saved) : Prop :=
  match s with
  | SavedOriginal _ v => same_extent vid v
  | SavedMask _ v => same_extent vid v
  end.

(** * Properties *)

(** ** Running monadic code *)

Lemma Result_bind_Ok {A B} (m : Result A) (k : A → Result B) (b : B) :
  m ≫= k = Ok b ↔ ∃ a, m = Ok a ∧ k a = Ok b.
Proof.
  destruct m as [a|e]; simpl; split.
  - intros Hk. by exists a.
  - by intros (a' & [= <-] & Hk).
  - discriminate.
  - by intros (a' & [=] & _).
Qed.

Lemma of_option_Ok {A} (e : Exn) (o : option A) (a : A) :
  of_option e o = Ok a ↔ o = Some a.
Proof. destruct o; simpl; split; congruence. Qed.

Lemma bind_Ok {A B} (m : M A) (k : A → M B) (st st' : State) (b : B) :
  (m ≫= k) st = Ok (b, st') ↔
  ∃ a st1, m st = Ok (a, st1) ∧ k a st1 = Ok (b, st').
Proof.
  unfold mbind, M_bind. destruct (m st) as [[a st1]|e]; split.
  - intros Hk. by exists a, st1.
  - by intros (a' & st2 & [= <- <-] & Hk).
  - discriminate.
  - by intros (a' & st2 & [=] & _).
Qed.

Lemma lift_Ok {A} (m : Result A) (st st' : State) (a : A) :
  lift m st = Ok (a, st') ↔ m = Ok a ∧ st' = st.
Proof.
  destruct m; simpl; split.
  - by intros [= <- <-].
  - by intros [[= <-] ->].
  - discriminate.
  - by intros [[=] _].
Qed.

Lemma ret_Ok {A} (x a : A) (st st' : State) :
  mret (M := M) x st = Ok (a, st') ↔ a = x ∧ st' = st.
Proof.
  unfold mret, M_ret. split.
  - by intros [= <- <-].
  - by intros [-> ->].
Qed.

Lemma deref_Ok (r : nat) (st st' : State) (roi : ROI) :
  deref r st = Ok (roi, st') ↔ heap st !! r = Some roi ∧ st' = st.
Proof.
  unfold deref. destruct (heap st !! r); split.
  - by intros [= <- <-].
  - by intros [[= <-] ->].
  - discriminate.
  - by intros [[=] _].
Qed.

Lemma deref_all_Ok (rs : list nat) (st st' : State) (rois : list ROI) :
  deref_all rs st = Ok (rois, st') ↔
  mapM (λ r, heap st !! r) rs = Some rois ∧ st' = st.
Proof.
  unfold deref_all. destruct (mapM _ rs); split.
  - by intros [= <- <-].
  - by intros [[= <-] ->].
  - discriminate.
  - by intros [[=] _].
Qed.

Lemma mutate_Ok (r : nat) (f : ROI → ROI) (st st' : State) (u : ()) :
  mutate r f st = Ok (u, st') ↔
  ∃ roi, heap st !! r = Some roi ∧
         st' = MkState (<[r := f roi]> (heap st)) (buf st) (trace st).
Proof.
  unfold mutate. destruct (heap st !! r) as [roi|]; split.
  - intros [= _ <-]. by exists roi.
  - intros (roi' & [= <-] & ->). by destruct u.
  - discriminate.
  - by intros (roi' & [=] & _).
Qed.

Lemma returned_Ok {A} (r : Result (A * State)) (a : A) :
  returned r = Some a → r = Ok (a, state_after r).
Proof. destruct r as [[a' st]|e]; simpl; [by intros [= ->]|done]. Qed.

Ltac subst_rhs :=
  repeat match goal with
  | E : _ = ?y |- _ => is_var y; subst y
  end.

(** Takes apart every hypothesis that says that a piece of monadic code has
    returned. *)
Ltac inv_run :=
  repeat match goal with
  | H : @mbind M _ _ _ _ _ _ = Ok _ |- _ =>
      apply bind_Ok in H; destruct H as (? & ? & ? & H)
  | H : @mbind Result _ _ _ _ _ = Ok _ |- _ =>
      apply Result_bind_Ok in H; destruct H as (? & ? & H)
  | H : lift _ _ = Ok _ |- _ => apply lift_Ok in H; destruct H as [H ->]
  | H : @mret M _ _ _ _ = Ok _ |- _ => unfold mret, M_ret in H
  | H : of_option _ _ = Ok _ |- _ => apply of_option_Ok in H
  | H : deref _ _ = Ok _ |- _ => apply deref_Ok in H; destruct H as [H ->]
  | H : deref_all _ _ = Ok _ |- _ => apply deref_all_Ok in H; destruct H as [H ->]
  | H : mutate _ _ _ = Ok _ |- _ => apply mutate_Ok in H; destruct H as (? & ? & ->)
  | H : get_buf _ = Ok _ |- _ => unfold get_buf in H
  | H : emit _ _ = Ok _ |- _ => unfold emit in H
  | H : alloc _ _ = Ok _ |- _ => unfold alloc in H
  | H : set_original _ _ = Ok _ |- _ => unfold set_original in H
  | H : set_binary _ _ = Ok _ |- _ => unfold set_binary in H
  | H : set_edges _ _ = Ok _ |- _ => unfold set_edges in H
  | H : (let '(_, _) := ?p in _) _ = Ok _ |- _ => is_var p; destruct p
  | H : (let '(_, _) := ?p in _) = Ok _ |- _ => is_var p; destruct p
  | H : Ok _ = Ok _ |- _ => injection H; clear H; intros; subst_rhs
  end.

Section TrackerFacts.
Context {K : Type} `{Countable K}.
Context `{VideoLib} `{Skimage} `{Pixel Z} `{Pixel Color}.
Implicit Types (st : State) (pipe : Pipeline K) (frame : Img Color).
Implicit Types (roi : ROI) (rois new_rois : list nat) (pois : Pois K).

Lemma for_each_app {A B} (l1 l2 : list A) (body : A → B → M B) (acc : B) st :
  for_each (l1 ++ l2) body acc st =
  (acc' ← for_each l1 body acc; for_each l2 body acc') st.
Proof.
  revert acc st. induction l1 as [|x l1 IH]; intros acc st; simpl.
  - done.
  - unfold mbind, M_bind. destruct (body x acc st) as [[acc1 st1]|e]; [|done].
    apply IH.
Qed.

(** An invariant of the loop body is an invariant of the loop. *)
Lemma for_each_inv {A B} (P : B → State → Prop) (l : list A)
    (body : A → B → M B) (acc acc' : B) st st' :
  (∀ x a s a' s', x ∈ l → P a s → body x a s = Ok (a', s') → P a' s') →
  P acc st →
  for_each l body acc st = Ok (acc', st') →
  P acc' st'.
Proof.
  revert acc st. induction l as [|x l IH]; intros acc st Hbody HP Hrun; simpl in Hrun.
  - inv_run. done.
  - inv_run. eapply IH; [|eapply Hbody; [left|exact HP|eassumption]|eassumption].
    intros y a s a' s' Hy. apply Hbody. by right.
Qed.

(** *** The restricted scan *)

Lemma _scan_roi_Ok frame i pipe r st res st' :
  _scan_roi frame i pipe r st = Ok (res, st') →
  ∃ roi bin1 bin seg ed1 ed e,
    heap st !! r = Some roi ∧
    assign_slice (buf_binary (buf st)) i (r0 roi) (r1 roi) (c0 roi) (c1 roi)
      (pipe_binarize pipe (img_slice frame (r0 roi) (r1 roi) (c0 roi) (c1 roi)))
      = Ok bin1 ∧
    _draw_roi bin1 i roi 255 = Ok bin ∧
    video_slice bin i (r0 roi) (r1 roi) (c0 roi) (c1 roi) = Ok seg ∧
    assign_slice (buf_edges (buf st)) i (r0 roi) (r1 roi) (c0 roi) (c1 roi)
      (pipe_edge pipe seg) = Ok ed1 ∧
    _draw_roi ed1 i roi 255 = Ok ed ∧
    video_slice ed i (r0 roi) (r1 roi) (c0 roi) (c1 roi) = Ok e ∧
    res = pipe_detect pipe e seg ∧
    st' = MkState (heap st) (MkBuffer (buf_original (buf st)) bin ed)
            (trace st ++
             [EvScanRoi i r;
              EvBinarize (img_slice frame (r0 roi) (r1 roi) (c0 roi) (c1 roi));
              EvEdge seg; EvDetect e seg]).
Proof.
  unfold _scan_roi. intros Hrun. inv_run. simpl in *.
  repeat match goal with
         | Ha : ?x = Ok ?a, Hb : ?x = Ok ?b |- _ =>
             assert (a = b) as -> by congruence; clear Hb
         end.
  eexists _, _, _, _, _, _, _. repeat (split; [eassumption|]).
  split; [done|]. by rewrite <- !app_assoc.
Qed.

(** *** The full scan *)

Lemma _find_rois_Ok (bs : Barycenters K) pois st res st' :
  _find_rois bs pois st = Ok (res, st') →
  ∃ objs,
    Forall2 (λ b roi, ∃ vy vx,
               _get_vertices b.1 pois = Ok (vy, vx) ∧
               roi = ROI_init (extent (buf st)).1 (extent (buf st)).2
                       b.2.1 b.2.2 vy vx ROI_LIFESPAN) bs objs ∧
    res = seq (length (heap st)) (length bs) ∧
    st' = MkState (heap st ++ objs) (buf st) (trace st).
Proof.
  unfold _find_rois. intros Hrun. inv_run.
  destruct (extent (buf st)) as [w h] eqn:Hext. simpl.
  assert (∀ acc st0,
    for_each bs
      (λ '(keys, (y, x)) rois,
         '(vy, vx) ← lift (_get_vertices keys pois);
         r ← alloc (ROI_init w h y x vy vx ROI_LIFESPAN);
         mret (rois ++ [r])) acc st0 = Ok (res, st') →
    ∃ objs,
      Forall2 (λ b roi, ∃ vy vx,
                 _get_vertices b.1 pois = Ok (vy, vx) ∧
                 roi = ROI_init w h b.2.1 b.2.2 vy vx ROI_LIFESPAN) bs objs ∧
      res = acc ++ seq (length (heap st0)) (length bs) ∧
      st' = MkState (heap st0 ++ objs) (buf st0) (trace st0)) as Hloop.
  { clear Hrun. induction bs as [|[keys [y x]] bs IH]; intros acc st0 Hrun;
      simpl in Hrun.
    - inv_run. exists []. split; [constructor|]. simpl.
      rewrite !app_nil_r. by destruct st0.
    - inv_run.
      apply IH in Hrun as (objs & Hobjs & -> & ->). simpl.
      eexists (ROI_init w h y x _ _ ROI_LIFESPAN :: objs). split.
      + constructor; [|done]. eexists _, _. split; [eassumption|done].
      + rewrite length_app. simpl. rewrite <- !app_assoc. simpl.
        by rewrite Nat.add_1_r. }
  apply Hloop in Hrun as (objs & Hobjs & -> & ->). by exists objs.
Qed.
End TrackerFacts.

Section TrackerFacts2.
Context {K : Type} `{Countable K}.
Context `{VideoLib} `{Skimage} `{Pixel Z} `{Pixel Color}.
Implicit Types (st : State) (pipe : Pipeline K) (frame : Img Color).
Implicit Types (roi : ROI) (rois new_rois : list nat) (pois : Pois K).

Lemma _scan_full_Ok frame i pipe st res st' :
  _scan_full frame i pipe st = Ok (res, st') →
  ∃ bin,
    assign_frame (buf_binary (buf st)) i (pipe_binarize pipe frame) = Ok bin ∧
    if pipe_binary pipe && negb (pipe_edges pipe) then
      res = [] ∧
      st' = MkState (heap st)
              (MkBuffer (buf_original (buf st)) bin (buf_edges (buf st)))
              (trace st ++ [EvScanFull i; EvBinarize frame])
    else
      ∃ ed,
        assign_frame (buf_edges (buf st)) i
          (pipe_edge pipe (pipe_binarize pipe frame)) = Ok ed ∧
        if pipe_edges pipe then
          res = [] ∧
          st' = MkState (heap st) (MkBuffer (buf_original (buf st)) bin ed)
                  (trace st ++ [EvScanFull i; EvBinarize frame;
                                EvEdge (pipe_binarize pipe frame)])
        else
          _find_rois
            (pipe_detect pipe (pipe_edge pipe (pipe_binarize pipe frame))
               (pipe_binarize pipe frame)).1
            (pipe_detect pipe (pipe_edge pipe (pipe_binarize pipe frame))
               (pipe_binarize pipe frame)).2
            (MkState (heap st) (MkBuffer (buf_original (buf st)) bin ed)
               (trace st ++
                [EvScanFull i; EvBinarize frame;
                 EvEdge (pipe_binarize pipe frame);
                 EvDetect (pipe_edge pipe (pipe_binarize pipe frame))
                   (pipe_binarize pipe frame)]))
          = Ok (res, st').
Proof.
  unfold _scan_full. intros Hrun. inv_run. simpl in *.
  eexists. split; [eassumption|].
  destruct (pipe_binary pipe && negb (pipe_edges pipe)).
  { inv_run. by rewrite <- !app_assoc. }
  inv_run. simpl in *. eexists. split; [eassumption|].
  destruct (pipe_edges pipe).
  { inv_run. by rewrite <- !app_assoc. }
  inv_run. simpl in *.
  destruct (pipe_detect pipe _ _) as [bs pois]. simpl.
  match goal with Hf : _find_rois _ _ _ = _ |- _ => by rewrite <- !app_assoc in Hf end.
Qed.

Lemma _merge_rois_Ok w h r (b : (K * K * K) * (Z * Z)) pois new_rois st res st' :
  _merge_rois w h r b pois new_rois st = Ok (res, st') →
  ∃ vy vx roi accepted,
    _get_vertices b.1 pois = Ok (vy, vx) ∧
    heap st !! r = Some roi ∧
    let new_roi := ROI_init w h b.2.1 b.2.2 (map3 (λ y, r0 roi + y) vy)
                     (map3 (λ x, c0 roi + x) vx) ROI_LIFESPAN in
    mapM (λ a, (heap st ++ [new_roi]) !! a) new_rois = Some accepted ∧
    res = (if existsb (ROI_intersects new_roi) accepted then new_rois
           else new_rois ++ [length (heap st)]) ∧
    st' = MkState (heap st ++ [new_roi]) (buf st) (trace st).
Proof.
  unfold _merge_rois. destruct b as [keys [y x]]. intros Hrun. inv_run.
  simpl in *. eexists _, _, _, _. repeat (split; [eassumption|]).
  destruct (existsb _ _); by inv_run.
Qed.

Lemma roi_step_Ok frame i pipe w h r new_rois st res st' :
  roi_step frame i pipe w h r new_rois st = Ok (res, st') →
  ∃ bs pois st1 roi,
    _scan_roi frame i pipe r st = Ok ((bs, pois), st1) ∧
    heap st1 = heap st ∧
    heap st !! r = Some roi ∧
    match bs with
    | first :: _ => _merge_rois w h r first pois new_rois st1 = Ok (res, st')
    | [] =>
        if ROI_dead roi then res = new_rois ∧ st' = st1
        else res = new_rois ++ [r] ∧
             st' = MkState (<[r := ROI_punish roi]> (heap st1)) (buf st1) (trace st1)
    end.
Proof.
  unfold roi_step. intros Hrun. inv_run.
  match goal with
  | Hs : _scan_roi _ _ _ _ _ = Ok _ |- _ =>
      pose proof (_scan_roi_Ok _ _ _ _ _ _ _ Hs) as
        (roi & ? & ? & ? & ? & ? & ? & Hroi & _ & _ & _ & _ & _ & _ & _ & Hst)
  end.
  eexists _, _, _, roi. split; [eassumption|].
  split; [by subst|]. split; [done|].
  match goal with |- match ?bs with _ => _ end => destruct bs as [|first rest] end;
    [|done].
  inv_run.
  match goal with
  | Hd : heap _ !! r = Some ?roi' |- _ =>
      assert (roi' = roi) as -> by (subst; simpl in *; congruence)
  end.
  destruct (ROI_dead roi); simpl in *; inv_run; [done|].
  split; [done|]. f_equal. f_equal. subst. simpl in *. congruence.
Qed.

(** *** Drawing touches the original frames only *)

Lemma draw_loop_Ok i new_rois st (u u' : ()) st' :
  for_each new_rois (draw_step i) u st = Ok (u', st') →
  heap st' = heap st ∧ trace st' = trace st ∧
  buf_binary (buf st') = buf_binary (buf st) ∧
  buf_edges (buf st') = buf_edges (buf st).
Proof.
  apply (for_each_inv
    (λ _ s, heap s = heap st ∧ trace s = trace st ∧
            buf_binary (buf s) = buf_binary (buf st) ∧
            buf_edges (buf s) = buf_edges (buf st))); [|done].
  intros r [] s [] s' _ Hs Hstep. unfold draw_step in Hstep. by inv_run.
Qed.

(** *** The frame step, taken apart *)

Lemma _process_Ok i pipe rois st new_rois st' :
  _process i pipe rois st = Ok (new_rois, st') →
  ∃ frame found st1 st2,
    frame_at (buf_original (buf st)) i = Ok frame ∧
    (if rescans i rois then _scan_full frame i pipe st = Ok (found, st1)
     else found = [] ∧ st1 = st) ∧
    for_each rois
      (roi_step frame i pipe (extent (buf st)).1 (extent (buf st)).2)
      found st1 = Ok (new_rois, st2) ∧
    heap st' = heap st2 ∧ trace st' = trace st2 ∧
    buf_binary (buf st') = buf_binary (buf st2) ∧
    buf_edges (buf st') = buf_edges (buf st2).
Proof.
  unfold _process. fold (rescans i rois). intros Hrun. inv_run.
  destruct (extent (buf st)) as [w h] eqn:Hext.
  destruct (rescans i rois); inv_run; simpl in *.
  all: match goal with
  | Hd : for_each _ (draw_step _) _ _ = Ok _ |- _ =>
      apply draw_loop_Ok in Hd as (Hh & Ht & Hb & He); simpl in *
  end.
  all: eexists _, _, _, _; split; [eassumption|].
  all: split; [|split; [eassumption|done]]; done.
Qed.
End TrackerFacts2.

Section ArrayFacts.
Context `{Skimage} {P : Type} `{Pixel P}.
Implicit Types (arr : Video P) (img src : Img P) (roi : ROI).

Lemma mapM_omap {A B} (f : A → option B) (l : list A) (l' : list B) :
  mapM f l = Some l' → omap f l = l'.
Proof.
  revert l'. induction l as [|x l IH]; intros l' Hl.
  - by injection Hl.
  - simpl in Hl. cbn. destruct (f x) as [y|]; simpl in Hl; [|done].
    destruct (mapM f l) as [k|]; simpl in Hl; [|done].
    injection Hl as <-. by rewrite (IH k).
Qed.

Lemma mem_point_app (l1 l2 : list (Z * Z)) r c :
  mem_point (l1 ++ l2) r c = mem_point l1 r c || mem_point l2 r c.
Proof. apply existsb_app. Qed.

Lemma assign_points_Ok arr i (pts : list (Z * Z)) (val : P) arr' :
  assign_points arr i pts val = Ok arr' →
  v_h arr' = v_h arr ∧ v_w arr' = v_w arr ∧
  ∃ px,
    v_frames arr !! i = Some px ∧
    v_frames arr' =
      <[i := λ r c, if mem_point (omap (norm_point (v_h arr) (v_w arr)) pts) r c
                    then val else px r c]> (v_frames arr).
Proof.
  unfold assign_points. intros Hrun. inv_run. simpl.
  repeat split. eexists. split; [eassumption|].
  match goal with Hm : mapM _ _ = Some _ |- _ => by rewrite (mapM_omap _ _ _ Hm) end.
Qed.

Lemma assign_slice_Ok arr i a b c d src arr' :
  assign_slice arr i a b c d src = Ok arr' →
  v_h arr' = v_h arr ∧ v_w arr' = v_w arr ∧
  ∃ px,
    v_frames arr !! i = Some px ∧
    v_frames arr' =
      <[i := write_window (window (v_h arr) (v_w arr) a b c d) src px]>
        (v_frames arr).
Proof.
  unfold assign_slice. intros Hrun. inv_run.
  destruct (broadcastable _ _ src); [|done]. inv_run. simpl.
  repeat split. eexists. split; [eassumption|done].
Qed.

Lemma assign_frame_Ok arr i src arr' :
  assign_frame arr i src = Ok arr' →
  v_h arr' = v_h arr ∧ v_w arr' = v_w arr ∧
  ∃ px,
    v_frames arr !! i = Some px ∧
    v_frames arr' =
      <[i := write_window (0, v_h arr, 0, v_w arr) src px]> (v_frames arr).
Proof.
  unfold assign_frame. intros Hrun. inv_run.
  destruct (broadcastable _ _ src); [|done]. inv_run. simpl.
  repeat split. eexists. split; [eassumption|done].
Qed.

(** After [arr[i] = src], frame [i] holds the source, broadcast to the
    shape of the frame. *)
Lemma assign_frame_holds arr i src arr' :
  assign_frame arr i src = Ok arr' →
  ∃ px',
    v_frames arr' !! i = Some px' ∧
    ∀ r c, 0 ≤ r < v_h arr → 0 ≤ c < v_w arr →
           px' r c = broadcast_px (v_h arr) (v_w arr) src r c.
Proof.
  intros Hrun. apply assign_frame_Ok in Hrun as (_ & _ & px & Hpx & ->).
  eexists. split.
  - apply list_lookup_insert_eq. by eapply lookup_lt_Some.
  - intros r c Hr Hc. unfold write_window, in_window. simpl.
    rewrite !Z.sub_0_r.
    assert ((0 <=? r) && (r <? 0 + v_h arr) && (0 <=? c) && (c <? 0 + v_w arr)
            = true) as ->; [|done].
    rewrite !andb_true_iff, !Z.leb_le, !Z.ltb_lt. lia.
Qed.

Lemma video_slice_Ok arr i a b c d img :
  video_slice arr i a b c d = Ok img →
  ∃ px, v_frames arr !! i = Some px ∧
        img = img_slice (MkImg (v_h arr) (v_w arr) px) a b c d.
Proof.
  unfold video_slice, frame_at. intros Hrun. inv_run.
  eexists. split; [eassumption|done].
Qed.

(** The marker changes stamped pixels of frame [i] only, to the marker
    value or its decayed version. *)
Lemma _draw_roi_Ok arr i roi (val : P) arr' :
  _draw_roi arr i roi val = Ok arr' →
  v_h arr' = v_h arr ∧ v_w arr' = v_w arr ∧
  ∃ px px',
    v_frames arr !! i = Some px ∧
    v_frames arr' = <[i := px']> (v_frames arr) ∧
    ∀ r c,
      if stamped (v_h arr) (v_w arr) roi r c
      then px' r c = val ∨ px' r c = px_decay val (health roi)
      else px' r c = px r c.
Proof.
  unfold _draw_roi. intros Hrun.
  apply Result_bind_Ok in Hrun as (a1 & H1 & Hrun).
  apply Result_bind_Ok in Hrun as (a2 & H2 & H3).
  apply assign_points_Ok in H1 as (Hh1 & Hw1 & px & Hpx & Hf1).
  apply assign_points_Ok in H2 as (Hh2 & Hw2 & px1 & Hpx1 & Hf2).
  apply assign_points_Ok in H3 as (Hh3 & Hw3 & px2 & Hpx2 & Hf3).
  pose proof (lookup_lt_Some _ _ _ Hpx) as Hlt.
  rewrite Hh2, Hw2, Hh1, Hw1 in *.
  rewrite Hf1, list_lookup_insert_eq in Hpx1 by done. injection Hpx1 as <-.
  rewrite Hf2, list_lookup_insert_eq in Hpx2
    by (rewrite Hf1, length_insert; done).
  injection Hpx2 as <-.
  rewrite Hf3, Hf2, Hf1, !list_insert_insert_eq.
  split; [done|]. split; [done|]. exists px. eexists.
  split; [done|]. split; [done|].
  intros r c. unfold stamped, marker. rewrite !omap_app, !mem_point_app.
  repeat match goal with
  | |- context [mem_point ?l r c] => destruct (mem_point l r c); simpl
  end; auto.
Qed.
End ArrayFacts.

Section Schedule.
Context {K : Type} `{Countable K}.
Context `{VideoLib} `{Skimage} `{Pixel Z} `{Pixel Color}.
Implicit Types (st : State) (pipe : Pipeline K) (frame : Img Color).
Implicit Types (roi : ROI) (rois new_rois : list nat) (pois : Pois K).

Lemma scans_app (t1 t2 : list Event) : scans (t1 ++ t2) = scans t1 ++ scans t2.
Proof. apply omap_app. Qed.

Lemma _find_rois_trace (bs : Barycenters K) pois st res st' :
  _find_rois bs pois st = Ok (res, st') → trace st' = trace st.
Proof. intros Hrun. apply _find_rois_Ok in Hrun as (objs & _ & _ & ->). done. Qed.

Lemma _scan_full_trace frame i pipe st res st' :
  _scan_full frame i pipe st = Ok (res, st') →
  ∃ evs, trace st' = trace st ++ EvScanFull i :: evs ∧ scans evs = [].
Proof.
  intros Hrun. apply _scan_full_Ok in Hrun as (bin & _ & Hrest).
  destruct (pipe_binary pipe && negb (pipe_edges pipe)).
  { destruct Hrest as [_ ->]. by eexists. }
  destruct Hrest as (ed & _ & Hrest). destruct (pipe_edges pipe).
  { destruct Hrest as [_ ->]. by eexists. }
  apply _find_rois_trace in Hrest as ->. by eexists.
Qed.

Lemma roi_step_trace frame i pipe w h r new_rois st res st' :
  roi_step frame i pipe w h r new_rois st = Ok (res, st') →
  ∃ evs, trace st' = trace st ++ EvScanRoi i r :: evs ∧ scans evs = [].
Proof.
  intros Hrun. apply roi_step_Ok in Hrun as (bs & pois & st1 & roi & Hscan & _ & _ & Hrest).
  apply _scan_roi_Ok in Hscan as
    (roi' & bin1 & bin & seg & ed1 & ed & e & _ & _ & _ & _ & _ & _ & _ & _ & ->).
  assert (trace st' = trace st ++
            [EvScanRoi i r;
             EvBinarize (img_slice frame (r0 roi') (r1 roi') (c0 roi') (c1 roi'));
             EvEdge seg; EvDetect e seg]) as ->; [|by eexists].
  destruct bs as [|first rest].
  - destruct (ROI_dead roi); by destruct Hrest as [_ ->].
  - by apply _merge_rois_Ok in Hrest as (? & ? & ? & ? & _ & _ & _ & _ & ->).
Qed.

Lemma roi_loop_trace frame i pipe w h rois new_rois st res st' :
  for_each rois (roi_step frame i pipe w h) new_rois st = Ok (res, st') →
  ∃ evs, trace st' = trace st ++ evs ∧ scans evs = RoiScan i <$> rois.
Proof.
  revert new_rois st. induction rois as [|r rois IH]; intros new_rois st Hrun;
    simpl in Hrun; inv_run.
  - exists []. by rewrite app_nil_r.
  - match goal with
    | Hs : roi_step _ _ _ _ _ _ _ _ = Ok _ |- _ =>
        apply roi_step_trace in Hs as (evs1 & Ht1 & Hs1)
    end.
    apply IH in Hrun as (evs2 & -> & Hs2). rewrite Ht1.
    exists (EvScanRoi i r :: evs1 ++ evs2). split.
    + by rewrite <- app_assoc.
    + rewrite fmap_cons. change (EvScanRoi i r :: evs1 ++ evs2)
        with ([EvScanRoi i r] ++ evs1 ++ evs2).
      rewrite !scans_app, Hs1, Hs2. done.
Qed.

(** C1: a frame step makes the full scan exactly when the frame index is
    a multiple of 15 or the carried-in list is empty, makes it once and
    before all restricted scans, and makes one restricted scan per element
    of the carried-in list, in order. *)
Theorem C1_scan_schedule i pipe rois st new_rois st' :
  _process i pipe rois st = Ok (new_rois, st') →
  ∃ evs,
    trace st' = trace st ++ evs ∧
    scans evs = (if rescans i rois then [FullScan i] else [])
                ++ (RoiScan i <$> rois) ∧
    (FullScan i ∈ scans evs ↔ (i `mod` 15 = 0)%nat ∨ rois = []).
Proof.
  intros Hrun. apply _process_Ok in Hrun as (frame & found & st1 & st2 & _ & Hfull & Hloop & _ & -> & _).
  apply roi_loop_trace in Hloop as (evs2 & -> & Hs2).
  assert (∃ evs1, trace st1 = trace st ++ evs1 ∧
            scans evs1 = if rescans i rois then [FullScan i] else [])
    as (evs1 & -> & Hs1).
  { destruct (rescans i rois).
    - apply _scan_full_trace in Hfull as (evs & -> & Hs).
      exists (EvScanFull i :: evs). split; [done|].
      change (EvScanFull i :: evs) with ([EvScanFull i] ++ evs).
      by rewrite scans_app, Hs.
    - destruct Hfull as [_ ->]. exists []. by rewrite app_nil_r. }
  exists (evs1 ++ evs2). rewrite <- app_assoc. split; [done|].
  rewrite scans_app, Hs1, Hs2. split; [done|].
  unfold rescans. rewrite elem_of_app, list_elem_of_fmap.
  destruct (i `mod` 15 =? 0)%nat eqn:Hmod; simpl.
  - apply Nat.eqb_eq in Hmod. split; [by left|]. intros _. left. by left.
  - apply Nat.eqb_neq in Hmod. destruct rois as [|r rois]; simpl.
    + split; [by right|]. intros _. left. by left.
    + split; [|by intros [?|?]].
      intros [Hin|(y & Hy & _)]; [by apply elem_of_nil in Hin|done].
Qed.
End Schedule.

Section Merge.
Context {K : Type} `{Countable K}.
Context `{VideoLib} `{Skimage} `{Pixel Z} `{Pixel Color}.
Implicit Types (st : State) (pipe : Pipeline K) (frame : Img Color).
Implicit Types (roi : ROI) (rois new_rois : list nat) (pois : Pois K).

Lemma ROI_init_fields w h y x (py px : Vec3) hp :
  roi_extent (ROI_init w h y x py px hp) = (w, h) ∧
  roi_center (ROI_init w h y x py px hp) = (y, x) ∧
  (r0 (ROI_init w h y x py px hp), r1 (ROI_init w h y x py px hp),
   c0 (ROI_init w h y x py px hp), c1 (ROI_init w h y x py px hp))
    = bounding_box w h y x py px ∧
  vy (ROI_init w h y x py px hp) = py ∧
  vx (ROI_init w h y x py px hp) = px ∧
  health (ROI_init w h y x py px hp) = hp.
Proof.
  unfold ROI_init. by destruct (bounding_box w h y x py px) as [[[a b] c] d].
Qed.

Lemma ROI_init_health w h y x (py px : Vec3) hp :
  health (ROI_init w h y x py px hp) = hp.
Proof. apply ROI_init_fields. Qed.

(** Objects that a list of references denotes stay the same when the store
    grows. *)
Lemma deref_grow (hp ext : list ROI) (rs : list nat) (objs : list ROI) :
  mapM (λ a, hp !! a) rs = Some objs →
  mapM (λ a, (hp ++ ext) !! a) rs = Some objs.
Proof.
  rewrite !mapM_Some. intros Hall. eapply Forall2_impl; [exact Hall|].
  intros a roi Ha. by apply lookup_app_l_Some.
Qed.

Lemma _merge_rois_run w h r (keys : K * K * K) y x pois new_rois st roi
    (py px : Vec3) (accepted : list ROI) :
  heap st !! r = Some roi →
  _get_vertices keys pois = Ok (py, px) →
  mapM (λ a, heap st !! a) new_rois = Some accepted →
  let new_roi := ROI_init w h y x (map3 (λ y, r0 roi + y) py)
                   (map3 (λ x, c0 roi + x) px) ROI_LIFESPAN in
  _merge_rois w h r (keys, (y, x)) pois new_rois st =
    Ok (if existsb (ROI_intersects new_roi) accepted then new_rois
        else new_rois ++ [length (heap st)],
        MkState (heap st ++ [new_roi]) (buf st) (trace st)).
Proof.
  intros Hroi Hv Hacc new_roi. unfold _merge_rois, mbind, M_bind.
  rewrite Hv. simpl. unfold deref. rewrite Hroi. simpl.
  unfold deref_all. simpl. fold new_roi.
  rewrite (deref_grow _ [new_roi] _ _ Hacc).
  by destruct (existsb _ accepted).
Qed.

(** C2: when the restricted scan of a region reports detections, the loop
    body takes the first one, adds the region's [r0] and [c0] to the
    vertices found for it, builds a region of full health from them and
    appends it to the new list exactly when its box intersects no region
    that the list already holds. *)
Theorem C2_merge_first_detection frame i pipe w h r new_rois st st1
    (keys : K * K * K) y x (rest : Barycenters K) pois roi (py px : Vec3)
    (accepted : list ROI) :
  _scan_roi frame i pipe r st = Ok (((keys, (y, x)) :: rest, pois), st1) →
  heap st1 !! r = Some roi →
  _get_vertices keys pois = Ok (py, px) →
  mapM (λ a, heap st1 !! a) new_rois = Some accepted →
  let new_roi := ROI_init w h y x (map3 (λ y, r0 roi + y) py)
                   (map3 (λ x, c0 roi + x) px) ROI_LIFESPAN in
  roi_step frame i pipe w h r new_rois st =
    Ok (if existsb (ROI_intersects new_roi) accepted then new_rois
        else new_rois ++ [length (heap st1)],
        MkState (heap st1 ++ [new_roi]) (buf st1) (trace st1))
  ∧ health new_roi = ROI_LIFESPAN
  ∧ vy new_roi = map3 (Z.add (r0 roi)) py
  ∧ vx new_roi = map3 (Z.add (c0 roi)) px
  ∧ (existsb (ROI_intersects new_roi) accepted = false ↔
     Forall (λ a, ROI_intersects new_roi a = false) accepted).
Proof.
  intros Hscan Hroi Hv Hacc new_roi. split; [|split; [|split; [|split]]].
  - unfold roi_step, mbind at 1, M_bind at 1. rewrite Hscan.
    by apply _merge_rois_run.
  - apply ROI_init_health.
  - apply ROI_init_fields.
  - apply ROI_init_fields.
  - rewrite Forall_forall. split.
    + intros Hex a Ha. destruct (ROI_intersects new_roi a) eqn:Hint; [|done].
      assert (existsb (ROI_intersects new_roi) accepted = true) as Hex'; [|congruence].
      apply existsb_exists. exists a. split; [by apply list_elem_of_In|done].
    + intros Hall. destruct (existsb _ accepted) eqn:Hex; [|done].
      apply existsb_exists in Hex as (a & Ha & Hint).
      rewrite Hall in Hint; [done|by apply list_elem_of_In].
Qed.

(** C6: the region that [_merge_rois] builds has the vertices moved into
    frame coordinates and the barycenter as the detection gives it,
    relative to the scanned window; its box is computed from that pair, and
    every vertex lies further from the barycenter than in the detection by
    the region's [r0] in rows and [c0] in columns. *)
Theorem C6_barycenter_untranslated w h r (keys : K * K * K) y x pois new_rois
    st res st' roi :
  _merge_rois w h r (keys, (y, x)) pois new_rois st = Ok (res, st') →
  heap st !! r = Some roi →
  ∃ (py px : Vec3) new_roi,
    _get_vertices keys pois = Ok (py, px) ∧
    heap st' = heap st ++ [new_roi] ∧
    roi_center new_roi = (y, x) ∧
    vy new_roi = map3 (Z.add (r0 roi)) py ∧
    vx new_roi = map3 (Z.add (c0 roi)) px ∧
    (r0 new_roi, r1 new_roi, c0 new_roi, c1 new_roi)
      = bounding_box w h y x (vy new_roi) (vx new_roi) ∧
    Forall2 (λ v' v, v' - (roi_center new_roi).1 = (v - y) + r0 roi)
      (vec3_list (vy new_roi)) (vec3_list py) ∧
    Forall2 (λ v' v, v' - (roi_center new_roi).2 = (v - x) + c0 roi)
      (vec3_list (vx new_roi)) (vec3_list px).
Proof.
  intros Hrun Hroi.
  apply _merge_rois_Ok in Hrun as (py & px & roi' & acc & Hv & Hroi' & _ & _ & ->).
  assert (roi' = roi) as -> by congruence. simpl in *.
  eexists py, px, _. split; [done|]. split; [done|].
  pose proof (ROI_init_fields w h y x (map3 (λ y, r0 roi + y) py)
                (map3 (λ x, c0 roi + x) px) ROI_LIFESPAN)
    as (_ & Hc & Hbox & Hvy & Hvx & _).
  rewrite Hc, Hvy, Hvx, Hbox. repeat (split; [done|]).
  destruct py as [[a1 a2] a3], px as [[b1 b2] b3]. simpl.
  split; repeat constructor; lia.
Qed.
End Merge.

Section Store.
Context {K : Type} `{Countable K}.
Context `{VideoLib} `{Skimage} `{Pixel Z} `{Pixel Color}.
Implicit Types (st : State) (pipe : Pipeline K) (frame : Img Color).
Implicit Types (roi : ROI) (rois new_rois : list nat) (pois : Pois K).

(** What the full scan does to the store: it adds regions of full health
    and returns the references to them, in order. *)
Lemma _scan_full_heap frame i pipe st res st' :
  _scan_full frame i pipe st = Ok (res, st') →
  ∃ objs,
    heap st' = heap st ++ objs ∧
    res = seq (length (heap st)) (length objs) ∧
    Forall (λ roi, health roi = ROI_LIFESPAN) objs.
Proof.
  intros Hrun. apply _scan_full_Ok in Hrun as (bin & _ & Hrest).
  destruct (pipe_binary pipe && negb (pipe_edges pipe)).
  { destruct Hrest as [-> ->]. exists []. by rewrite app_nil_r. }
  destruct Hrest as (ed & _ & Hrest). destruct (pipe_edges pipe).
  { destruct Hrest as [-> ->]. exists []. by rewrite app_nil_r. }
  apply _find_rois_Ok in Hrest as (objs & Hobjs & -> & ->). simpl.
  exists objs. split; [done|]. split.
  - by rewrite (Forall2_length _ _ _ Hobjs).
  - clear -Hobjs. induction Hobjs as [|b roi bs objs (py & px & _ & ->) _ IH];
      constructor; [apply ROI_init_health|done].
Qed.

(** What one iteration of the loop over the carried-in regions does to the
    store and to the new list: a dead region without detection is
    dropped, a live one is punished and carried forward, and a region with
    a detection gives way to a new region of full health, which is
    appended or not. *)
Lemma roi_step_heap frame i pipe w h r new_rois st res st' :
  roi_step frame i pipe w h r new_rois st = Ok (res, st') →
  ∃ roi,
    heap st !! r = Some roi ∧
    ((health roi = 0 ∧ res = new_rois ∧ heap st' = heap st) ∨
     (health roi ≠ 0 ∧ res = new_rois ++ [r] ∧
      heap st' = <[r := ROI_punish roi]> (heap st)) ∨
     (∃ new_roi,
        health new_roi = ROI_LIFESPAN ∧
        heap st' = heap st ++ [new_roi] ∧
        (res = new_rois ∨ res = new_rois ++ [length (heap st)]))).
Proof.
  intros Hrun.
  apply roi_step_Ok in Hrun as (bs & pois & st1 & roi & _ & Hheap & Hroi & Hrest).
  exists roi. split; [done|]. destruct bs as [|first rest].
  - unfold ROI_dead in Hrest. destruct (health roi =? 0) eqn:Hdead.
    + left. destruct Hrest as [-> ->]. by apply Z.eqb_eq in Hdead.
    + right. left. destruct Hrest as [-> ->]. apply Z.eqb_neq in Hdead.
      simpl. by rewrite Hheap.
  - right. right.
    apply _merge_rois_Ok in Hrest as (py & px & roi' & acc & _ & _ & _ & -> & ->).
    simpl. rewrite Hheap. eexists. split; [apply ROI_init_health|].
    split; [done|]. destruct (existsb _ acc); [by left|by right].
Qed.

(** A region that is dead when a frame starts is not in the list that the
    frame step returns. *)
Lemma dead_not_carried i pipe rois st new_rois st' r roi :
  _process i pipe rois st = Ok (new_rois, st') →
  heap st !! r = Some roi →
  health roi = 0 →
  r ∉ new_rois.
Proof.
  intros Hrun Hroi Hdead.
  apply _process_Ok in Hrun as (frame & found & st1 & st2 & _ & Hfull & Hloop & _).
  pose proof (lookup_lt_Some _ _ _ Hroi) as Hlt.
  assert ((r ∉ found) ∧ ∃ roi', heap st1 !! r = Some roi' ∧ health roi' = 0)
    as Hstart.
  { destruct (rescans i rois).
    - apply _scan_full_heap in Hfull as (objs & -> & -> & _). split.
      + rewrite elem_of_seq. lia.
      + exists roi. by rewrite lookup_app_l.
    - destruct Hfull as [-> ->]. split; [apply not_elem_of_nil|by exists roi]. }
  revert Hstart Hloop.
  apply (for_each_inv
    (λ acc s, (r ∉ acc) ∧ ∃ roi', heap s !! r = Some roi' ∧ health roi' = 0)).
  intros x acc s acc' s' _ (Hacc & roi' & Hroi' & Hdead') Hstep.
  pose proof (lookup_lt_Some _ _ _ Hroi') as Hlt'.
  apply roi_step_heap in Hstep as (rx & Hrx & Hcases).
  destruct Hcases as [(_ & -> & ->)|[(Hlive & -> & ->)|(new & _ & -> & Hres)]].
  - split; [done|by exists roi'].
  - assert (x ≠ r) as Hne by (intros ->; congruence). split.
    + rewrite elem_of_app, list_elem_of_singleton. intros [?|?]; [done|congruence].
    + exists roi'. by rewrite list_lookup_insert_ne.
  - split.
    + destruct Hres as [->| ->]; [done|].
      rewrite elem_of_app, list_elem_of_singleton. intros [?|?]; [done|lia].
    + exists roi'. by rewrite lookup_app_l.
Qed.

(** C4: when the restricted scan of a region reports no detection, a
    region that is not dead has its health lowered by one and is itself
    appended to the new list, and a dead region is left as it is and not
    appended; a region that is dead when a frame starts is therefore not in
    the list that the frame hands to the next one. *)
Theorem C4_no_detection frame i pipe w h r new_rois st st1 pois roi :
  _scan_roi frame i pipe r st = Ok (([], pois), st1) →
  heap st1 !! r = Some roi →
  (health roi ≠ 0 →
     roi_step frame i pipe w h r new_rois st =
       Ok (new_rois ++ [r],
           MkState (<[r := ROI_punish roi]> (heap st1)) (buf st1) (trace st1))
     ∧ <[r := ROI_punish roi]> (heap st1) !! r = Some (ROI_punish roi)
     ∧ health (ROI_punish roi) = health roi - 1)
  ∧ (health roi = 0 →
     roi_step frame i pipe w h r new_rois st = Ok (new_rois, st1))
  ∧ (∀ j rois st0 res st0' dead,
       _process j pipe rois st0 = Ok (res, st0') →
       heap st0 !! r = Some dead →
       health dead = 0 →
       r ∉ res).
Proof.
  intros Hscan Hroi. split; [|split].
  - intros Hlive. split; [|split].
    + unfold roi_step, mbind at 1, M_bind at 1. rewrite Hscan.
      unfold mbind, M_bind, deref. rewrite Hroi. unfold ROI_dead.
      apply Z.eqb_neq in Hlive. rewrite Hlive. simpl.
      unfold mutate. by rewrite Hroi.
    + apply list_lookup_insert_eq. by eapply lookup_lt_Some.
    + done.
  - intros Hdead. unfold roi_step, mbind at 1, M_bind at 1. rewrite Hscan.
    unfold mbind, M_bind, deref. rewrite Hroi. unfold ROI_dead.
    apply Z.eqb_eq in Hdead. by rewrite Hdead.
  - intros j rois st0 res st0' dead Hrun Hd Hz.
    by eapply dead_not_carried.
Qed.
End Store.

Section Health.
Context {K : Type} `{Countable K}.
Context `{VideoLib} `{Skimage} `{Pixel Z} `{Pixel Color}.
Implicit Types (st : State) (pipe : Pipeline K) (frame : Img Color).
Implicit Types (roi : ROI) (rois new_rois : list nat) (pois : Pois K).

Lemma well_stored_grow (hp hp' : list ROI) (rs : list nat) :
  (length hp ≤ length hp')%nat → well_stored hp rs → well_stored hp' rs.
Proof.
  intros Hle Hall. eapply Forall_impl; [exact Hall|]. intros r Hr. simpl in *. lia.
Qed.

Lemma bounded_full roi : health roi = ROI_LIFESPAN → bounded roi.
Proof. unfold bounded, ROI_LIFESPAN. lia. Qed.

Lemma frame_inv_scan_full hp frame i pipe st res st' :
  heap st = hp →
  Forall bounded hp →
  _scan_full frame i pipe st = Ok (res, st') →
  frame_inv hp res st'.
Proof.
  intros <- Hb Hrun. apply _scan_full_heap in Hrun as (objs & Hheap & -> & Hfull).
  split; rewrite Hheap.
  - rewrite length_app. lia.
  - apply Forall_app. split; [done|].
    eapply Forall_impl; [exact Hfull|]. apply bounded_full.
  - apply Forall_forall. intros r Hr%elem_of_seq. rewrite length_app. lia.
  - intros r roi Hr. exists roi. split; [by apply lookup_app_l_Some|lia].
  - intros r roi' Hr Hroi'. rewrite lookup_app_r in Hroi' by done.
    rewrite Forall_forall in Hfull. apply Hfull.
    by eapply list_elem_of_lookup_2.
Qed.

Lemma frame_inv_roi_step hp frame i pipe w h r acc st acc' st' :
  (r < length hp)%nat →
  frame_inv hp acc st →
  roi_step frame i pipe w h r acc st = Ok (acc', st') →
  frame_inv hp acc' st'.
Proof.
  intros Hr [Hgrow Hb Hst Hdec Hfresh] Hrun.
  apply roi_step_heap in Hrun as (roi & Hroi & Hcases).
  destruct Hcases as
    [(_ & -> & Hheap)|[(Hlive & -> & Hheap)|(new & Hnew & Hheap & Hres)]].
  - split; by rewrite ?Hheap.
  - pose proof (lookup_lt_Some _ _ _ Hroi) as Hlt.
    assert (bounded roi) as [Hlo Hhi].
    { rewrite Forall_forall in Hb. apply Hb. by eapply list_elem_of_lookup_2. }
    split; rewrite Hheap.
    + by rewrite length_insert.
    + apply Forall_insert; [done|]. unfold bounded in *. simpl. lia.
    + apply Forall_app. split.
      * eapply well_stored_grow; [|exact Hst]. by rewrite length_insert.
      * repeat constructor. by rewrite length_insert.
    + intros q rq Hq. destruct (decide (q = r)) as [->|Hne].
      * exists (ROI_punish roi). rewrite list_lookup_insert_eq by done.
        split; [done|]. destruct (Hdec _ _ Hq) as (roi' & Hroi' & Hle).
        assert (roi' = roi) as -> by congruence. simpl. lia.
      * rewrite list_lookup_insert_ne by done. by apply Hdec.
    + intros q rq Hq. rewrite list_lookup_insert_ne by lia. by apply Hfresh.
  - split; rewrite Hheap.
    + rewrite length_app. lia.
    + apply Forall_app. split; [done|].
      constructor; [by apply bounded_full|constructor].
    + assert (well_stored (heap st ++ [new]) acc) as Hacc.
      { eapply well_stored_grow; [|exact Hst]. rewrite length_app. lia. }
      destruct Hres as [->| ->]; [done|]. apply Forall_app. split; [done|].
      repeat constructor. rewrite length_app. simpl. lia.
    + intros q rq Hq. destruct (Hdec _ _ Hq) as (roi' & Hroi' & Hle).
      exists roi'. split; [by apply lookup_app_l_Some|done].
    + intros q rq Hq Hlook.
      destruct (decide (q < length (heap st))%nat) as [Hlt|Hge].
      * rewrite lookup_app_l in Hlook by done. by eapply Hfresh.
      * rewrite lookup_app_r in Hlook by lia.
        destruct (q - length (heap st))%nat; simpl in Hlook; [congruence|].
        by rewrite lookup_nil in Hlook.
Qed.

(** The store after a frame step, for a list of references that the store
    backs and a store within the bounds. *)
Lemma _process_frame_inv i pipe rois st new_rois st' :
  well_stored (heap st) rois →
  Forall bounded (heap st) →
  _process i pipe rois st = Ok (new_rois, st') →
  frame_inv (heap st) new_rois st'.
Proof.
  intros Hst Hb Hrun.
  apply _process_Ok in Hrun as
    (frame & found & st1 & st2 & _ & Hfull & Hloop & Hh & _).
  assert (frame_inv (heap st) found st1) as Hstart.
  { destruct (rescans i rois).
    - by eapply frame_inv_scan_full.
    - destruct Hfull as [-> ->]. split; try done.
      + constructor.
      + intros r roi Hr. by exists roi.
      + intros r roi' Hr Hroi'. apply lookup_lt_Some in Hroi'. lia. }
  assert (frame_inv (heap st) new_rois st2) as [? ? ? ? ?].
  { revert Hstart Hloop. apply for_each_inv.
    intros x a s a' s' Hx Hinv Hstep. eapply frame_inv_roi_step; [|done..].
    unfold well_stored in Hst. rewrite Forall_forall in Hst. by apply Hst. }
  split; by rewrite Hh.
Qed.
End Health.

Section Replay.
Context {K : Type} `{Countable K}.
Context `{VideoLib} `{Skimage} `{Pixel Z} `{Pixel Color}.
Implicit Types (st : State) (pipe : Pipeline K) (frame : Img Color).
Implicit Types (roi : ROI) (rois new_rois : list nat) (pois : Pois K).

(** The full scan changes the healths as its calls say. *)
Lemma _scan_full_replay frame i pipe st res st' :
  _scan_full frame i pipe st = Ok (res, st') →
  ∃ evs,
    trace st' = trace st ++ evs ∧
    ∀ cur, fold_left (health_step pipe) evs (cur, health <$> heap st)
           = (None, health <$> heap st').
Proof.
  intros Hrun. apply _scan_full_Ok in Hrun as (bin & _ & Hrest).
  destruct (pipe_binary pipe && negb (pipe_edges pipe)).
  { destruct Hrest as [_ ->]. eexists. split; [done|]. done. }
  destruct Hrest as (ed & _ & Hrest). destruct (pipe_edges pipe).
  { destruct Hrest as [_ ->]. eexists. split; [done|]. done. }
  apply _find_rois_Ok in Hrest as (objs & Hobjs & _ & ->).
  eexists. split; [done|]. intros cur. simpl.
  rewrite fmap_app. do 2 f_equal.
  rewrite (Forall2_length _ _ _ Hobjs). clear -Hobjs.
  induction Hobjs as [|b roi bs objs (py & px & _ & ->) _ IH]; [done|].
  simpl. rewrite ROI_init_health. by f_equal.
Qed.

(** One iteration of the loop over the carried-in regions changes the
    healths as its calls say. *)
Lemma roi_step_replay frame i pipe w h r new_rois st res st' :
  roi_step frame i pipe w h r new_rois st = Ok (res, st') →
  ∃ evs,
    trace st' = trace st ++ evs ∧
    ∀ cur, fold_left (health_step pipe) evs (cur, health <$> heap st)
           = (Some r, health <$> heap st').
Proof.
  intros Hrun.
  apply roi_step_Ok in Hrun as (bs & pois & st1 & roi & Hscan & _ & Hroi & Hrest).
  apply _scan_roi_Ok in Hscan as
    (roi' & bin1 & bin & seg & ed1 & ed & e & _ & _ & _ & _ & _ & _ & _ & Hdet & ->).
  exists [EvScanRoi i r;
          EvBinarize (img_slice frame (r0 roi') (r1 roi') (c0 roi') (c1 roi'));
          EvEdge seg; EvDetect e seg].
  destruct bs as [|first rest].
  - unfold ROI_dead in Hrest.
    assert ((health <$> heap st) !! r = Some (health roi)) as Hhp.
    { by rewrite list_lookup_fmap, Hroi. }
    destruct (health roi =? 0) eqn:Hdead; destruct Hrest as [_ ->].
    + split; [done|]. intros cur. simpl. rewrite <- Hdet. simpl.
      by rewrite Hhp, Hdead.
    + split; [done|]. intros cur. simpl. rewrite <- Hdet. simpl.
      rewrite Hhp, Hdead. by rewrite list_fmap_insert.
  - apply _merge_rois_Ok in Hrest as (py & px & roi2 & acc & _ & _ & _ & _ & ->).
    split; [done|]. intros cur. simpl. rewrite <- Hdet. simpl.
    rewrite fmap_app. simpl. by rewrite ROI_init_health.
Qed.

(** The loop body ends with the detection call of the restricted scan; a
    reported detection makes it build one new region, of full health, and
    leave the others as they are, and no detection makes it build none and
    lower the health of the scanned region by one unless it is dead. *)
Lemma roi_step_reconfirm frame i pipe w h r new_rois st res st' :
  roi_step frame i pipe w h r new_rois st = Ok (res, st') →
  ∃ roi edges segments,
    heap st !! r = Some roi ∧
    last (trace st') = Some (EvDetect edges segments) ∧
    match (pipe_detect pipe edges segments).1 with
    | _ :: _ =>
        ∃ new_roi,
          heap st' = heap st ++ [new_roi] ∧ health new_roi = ROI_LIFESPAN
    | [] =>
        heap st' = if health roi =? 0 then heap st
                   else <[r := ROI_punish roi]> (heap st)
    end.
Proof.
  intros Hrun.
  apply roi_step_Ok in Hrun as (bs & pois & st1 & roi & Hscan & _ & Hroi & Hrest).
  apply _scan_roi_Ok in Hscan as
    (roi' & bin1 & bin & seg & ed1 & ed & e & _ & _ & _ & _ & _ & _ & _ & Hdet & ->).
  exists roi, e, seg. split; [done|]. rewrite <- Hdet. simpl.
  assert (∀ t : list Event, ∀ a b c d, last (t ++ [a; b; c; d]) = Some d) as Hlast.
  { intros t a b c d. change [a; b; c; d] with ([a; b; c] ++ [d]).
    by rewrite app_assoc, last_snoc. }
  destruct bs as [|first rest].
  - unfold ROI_dead in Hrest.
    destruct (health roi =? 0); destruct Hrest as [_ ->]; simpl;
      by rewrite Hlast.
  - apply _merge_rois_Ok in Hrest as (py & px & roi2 & acc & _ & _ & _ & _ & ->).
    simpl. rewrite Hlast. split; [done|].
    eexists. split; [done|]. apply ROI_init_health.
Qed.

Lemma roi_loop_replay frame i pipe w h rois new_rois st res st' :
  for_each rois (roi_step frame i pipe w h) new_rois st = Ok (res, st') →
  ∃ evs,
    trace st' = trace st ++ evs ∧
    ∀ cur, ∃ cur', fold_left (health_step pipe) evs (cur, health <$> heap st)
                   = (cur', health <$> heap st').
Proof.
  revert new_rois st. induction rois as [|r rois IH]; intros new_rois st Hrun;
    simpl in Hrun; inv_run.
  - exists []. rewrite app_nil_r. split; [done|]. intros cur. by exists cur.
  - match goal with
    | Hs : roi_step _ _ _ _ _ _ _ _ = Ok _ |- _ =>
        apply roi_step_replay in Hs as (evs1 & Ht1 & Hr1)
    end.
    apply IH in Hrun as (evs2 & -> & Hr2). rewrite Ht1.
    exists (evs1 ++ evs2). rewrite <- app_assoc. split; [done|].
    intros cur. rewrite fold_left_app, Hr1. apply Hr2.
Qed.

(** A frame step changes the healths of the store as its calls say: the
    healths after the frame are the replay of the calls of the frame. *)
Lemma _process_replay i pipe rois st new_rois st' :
  _process i pipe rois st = Ok (new_rois, st') →
  ∃ evs,
    trace st' = trace st ++ evs ∧
    health <$> heap st' = replay_health pipe evs (health <$> heap st).
Proof.
  intros Hrun.
  apply _process_Ok in Hrun as
    (frame & found & st1 & st2 & _ & Hfull & Hloop & -> & -> & _).
  apply roi_loop_replay in Hloop as (evs2 & -> & Hr2).
  unfold replay_health. destruct (rescans i rois).
  - apply _scan_full_replay in Hfull as (evs1 & -> & Hr1).
    exists (evs1 ++ evs2). rewrite <- app_assoc. split; [done|].
    rewrite fold_left_app, Hr1. destruct (Hr2 None) as [cur' ->]. done.
  - destruct Hfull as [_ ->]. exists evs2. split; [done|].
    destruct (Hr2 None) as [cur' ->]. done.
Qed.
End Replay.

Section RunFacts.
Context {K Config : Type} `{Backend K Config}.
Context `{VideoLib} `{Skimage} `{Pixel Z} `{Pixel Color}.
Implicit Types (st : State) (pipe : Pipeline K) (vid : Video Color).
Implicit Types (rois : list nat) (stats : list Stat) (config : option Config).

(** the loop of [process], one frame further *)
Lemma run_frames_S vid only config n :
  run_frames vid only config (S n) =
  match run_frames vid only config n with
  | Ok (acc, st) => frame_step (process_pipe only config) n acc st
  | Raise e => Raise e
  end.
Proof.
  unfold run_frames. rewrite seq_S, for_each_app. simpl.
  unfold mbind at 1, M_bind at 1.
  destruct (for_each (seq 0 n) _ _ _) as [[acc st]|e]; [|done].
  unfold mbind, M_bind.
  by destruct (frame_step _ n acc st) as [[acc' st']|e].
Qed.

Lemma frame_step_Ok pipe n rois stats st rois' stats' st' :
  frame_step pipe n (rois, stats) st = Ok ((rois', stats'), st') →
  _process n pipe rois st = Ok (rois', st') ∧ stats' = stats ++ [stat_of rois].
Proof. unfold frame_step. intros Hrun. by inv_run. Qed.

(** Between two frames every reference of the active list denotes a region
    of the store, and every region of the store has a health within the
    bounds. *)
Lemma run_frames_inv vid only config n rois stats st :
  run_frames vid only config n = Ok ((rois, stats), st) →
  Forall bounded (heap st) ∧ well_stored (heap st) rois.
Proof.
  revert rois stats st. induction n as [|n IH]; intros rois stats st Hrun.
  - unfold run_frames in Hrun. simpl in Hrun. inv_run. simpl.
    split; constructor.
  - rewrite run_frames_S in Hrun.
    destruct (run_frames vid only config n) as [[[rois0 stats0] st0]|e];
      [|done].
    destruct (IH _ _ _ eq_refl) as [Hb Hst].
    apply frame_step_Ok in Hrun as [Hrun _].
    by destruct (_process_frame_inv _ _ _ _ _ _ Hst Hb Hrun).
Qed.

(** C5: in every run the health of every region stays between 0 and the
    lifespan; from one frame to the next the health of a region never
    grows, and the regions that a frame creates have the full lifespan.
    What a frame creates and lowers is fixed by its detections: the healths
    after the frame are the replay of its calls, in which every detection
    of the full scan and every restricted scan that confirms its region
    adds one region of full health, and every restricted scan that does
    not confirm its region lowers the health of that region by one unless
    it is 0.  So does each iteration of the loop over the regions: a
    confirmation builds a replacement of full health, anything else
    builds nothing. *)
Theorem C5_health_range vid only config n rois stats st :
  run_frames vid only config n = Ok ((rois, stats), st) →
  Forall (λ roi, 0 ≤ health roi ≤ ROI_LIFESPAN) (heap st) ∧
  (∀ rois' stats' st',
     run_frames vid only config (S n) = Ok ((rois', stats'), st') →
     (∀ r roi, heap st !! r = Some roi →
        ∃ roi', heap st' !! r = Some roi' ∧ health roi' ≤ health roi) ∧
     (∀ r roi', (length (heap st) ≤ r)%nat → heap st' !! r = Some roi' →
        health roi' = ROI_LIFESPAN) ∧
     (∃ evs,
        trace st' = trace st ++ evs ∧
        health <$> heap st' =
          replay_health (process_pipe only config) evs (health <$> heap st))) ∧
  (∀ frame i w h r new_rois st0 res st1,
     roi_step frame i (process_pipe only config) w h r new_rois st0
       = Ok (res, st1) →
     ∃ roi edges segments,
       heap st0 !! r = Some roi ∧
       last (trace st1) = Some (EvDetect edges segments) ∧
       match (pipe_detect (process_pipe only config) edges segments).1 with
       | _ :: _ =>
           ∃ new_roi,
             heap st1 = heap st0 ++ [new_roi] ∧ health new_roi = ROI_LIFESPAN
       | [] =>
           heap st1 = if health roi =? 0 then heap st0
                      else <[r := ROI_punish roi]> (heap st0)
       end).
Proof.
  intros Hrun. destruct (run_frames_inv _ _ _ _ _ _ _ Hrun) as [Hb Hst].
  split; [exact Hb|]. split.
  - intros rois' stats' st' Hnext.
    rewrite run_frames_S, Hrun in Hnext.
    apply frame_step_Ok in Hnext as [Hnext _].
    destruct (_process_frame_inv _ _ _ _ _ _ Hst Hb Hnext) as [_ _ _ Hdec Hfresh].
    split; [exact Hdec|]. split; [exact Hfresh|].
    by apply _process_replay in Hnext.
  - intros frame i w h r new_rois st0 res st1. apply roi_step_reconfirm.
Qed.
End RunFacts.

Section Modes.
Context {K Config : Type} `{Backend K Config}.
Context `{VideoLib} `{Skimage} `{Pixel Z} `{Pixel Color}.
Implicit Types (st : State) (pipe : Pipeline K) (vid : Video Color).
Implicit Types (rois : list nat) (stats : list Stat) (config : option Config).

Lemma process_pipe_flags only config :
  pipe_binary (process_pipe only config) = only.2 || only.1 ∧
  pipe_edges (process_pipe only config) = only.2.
Proof. by destruct only. Qed.

Lemma _scan_full_binary_only (frame : Img Color) i pipe st bin :
  binary_only pipe = true →
  assign_frame (buf_binary (buf st)) i (pipe_binarize pipe frame) = Ok bin →
  _scan_full frame i pipe st =
    Ok ([], MkState (heap st)
              (MkBuffer (buf_original (buf st)) bin (buf_edges (buf st)))
              (trace st ++ [EvScanFull i; EvBinarize frame])).
Proof.
  unfold binary_only. intros Hmode Hbin.
  unfold _scan_full, mbind, M_bind. simpl. rewrite Hbin. simpl.
  rewrite Hmode. unfold mret, M_ret. by rewrite <- app_assoc.
Qed.

Lemma _scan_full_edges_only (frame : Img Color) i pipe st bin ed :
  edges_only pipe = true →
  assign_frame (buf_binary (buf st)) i (pipe_binarize pipe frame) = Ok bin →
  assign_frame (buf_edges (buf st)) i
    (pipe_edge pipe (pipe_binarize pipe frame)) = Ok ed →
  _scan_full frame i pipe st =
    Ok ([], MkState (heap st) (MkBuffer (buf_original (buf st)) bin ed)
              (trace st ++ [EvScanFull i; EvBinarize frame;
                            EvEdge (pipe_binarize pipe frame)])).
Proof.
  unfold edges_only. intros Hmode Hbin Hed.
  unfold _scan_full, mbind, M_bind. simpl. rewrite Hbin. simpl.
  rewrite Hmode, andb_false_r. simpl. rewrite Hed. simpl.
  unfold mret, M_ret. by rewrite <- !app_assoc.
Qed.

(** C8: the array that [buf.binary[i] = segments] leaves holds the
    segmentation in frame [i]; in binary-only mode the full scan stores it,
    calls neither [edge] nor [detect] and returns no region; in
    edges-only mode it stores the segmentation and the edges, does not
    call [detect] and returns no region.  No pipeline is in both modes,
    and [process] builds its pipeline once, from its argument [only], and
    runs every frame with it. *)
Theorem C8_short_circuit_modes (frame : Img Color) i pipe st bin :
  assign_frame (buf_binary (buf st)) i (pipe_binarize pipe frame) = Ok bin →
  (∃ px,
     v_frames bin !! i = Some px ∧
     ∀ r c, 0 ≤ r < v_h (buf_binary (buf st)) →
            0 ≤ c < v_w (buf_binary (buf st)) →
            px r c = broadcast_px (v_h (buf_binary (buf st)))
                       (v_w (buf_binary (buf st))) (pipe_binarize pipe frame) r c)
  ∧ (binary_only pipe = true →
     _scan_full frame i pipe st =
       Ok ([], MkState (heap st)
                 (MkBuffer (buf_original (buf st)) bin (buf_edges (buf st)))
                 (trace st ++ [EvScanFull i; EvBinarize frame])))
  ∧ (edges_only pipe = true →
     ∀ ed,
       assign_frame (buf_edges (buf st)) i
         (pipe_edge pipe (pipe_binarize pipe frame)) = Ok ed →
       _scan_full frame i pipe st =
         Ok ([], MkState (heap st) (MkBuffer (buf_original (buf st)) bin ed)
                   (trace st ++ [EvScanFull i; EvBinarize frame;
                                 EvEdge (pipe_binarize pipe frame)])))
  ∧ ¬ (binary_only pipe = true ∧ edges_only pipe = true)
  ∧ (∀ only config,
       binary_only (process_pipe only config) = only.1 && negb only.2 ∧
       edges_only (process_pipe only config) = only.2)
  ∧ (∀ vid only config n,
       run_frames vid only config (S n) =
       match run_frames vid only config n with
       | Ok (acc, st0) => frame_step (process_pipe only config) n acc st0
       | Raise e => Raise e
       end).
Proof.
  intros Hbin. split; [|split; [|split; [|split; [|split]]]].
  - by apply assign_frame_holds.
  - intros Hmode. by apply _scan_full_binary_only.
  - intros Hmode ed Hed. by apply _scan_full_edges_only.
  - unfold binary_only, edges_only. intros [Hb He]. rewrite He in Hb.
    by rewrite andb_false_r in Hb.
  - intros [b e] config. unfold binary_only, edges_only. simpl.
    by destruct b, e.
  - apply run_frames_S.
Qed.

(** In either short-circuit mode a frame that starts with no region ends
    with no region, creates none, and makes no call that tracks one. *)
Lemma _process_short_circuit i pipe st res st' :
  pipe_binary pipe || pipe_edges pipe = true →
  _process i pipe [] st = Ok (res, st') →
  res = [] ∧ heap st' = heap st ∧
  ∃ evs, trace st' = trace st ++ evs ∧
         Forall (λ e, tracking_call e = false) evs.
Proof.
  intros Hmode Hrun.
  apply _process_Ok in Hrun as
    (frame & found & st1 & st2 & _ & Hfull & Hloop & -> & -> & _).
  assert (rescans i [] = true) as Hre.
  { unfold rescans. simpl. apply orb_true_r. }
  rewrite Hre in Hfull. simpl in Hloop. inv_run.
  apply _scan_full_Ok in Hfull as (bin & _ & Hrest).
  destruct (pipe_binary pipe && negb (pipe_edges pipe)) eqn:Hb.
  { destruct Hrest as [-> ->]. simpl. repeat split.
    eexists. split; [done|]. by repeat constructor. }
  destruct Hrest as (ed & _ & Hrest).
  destruct (pipe_edges pipe) eqn:He.
  { destruct Hrest as [-> ->]. simpl. repeat split.
    eexists. split; [done|]. by repeat constructor. }
  rewrite orb_false_r in Hmode. by rewrite Hmode in Hb.
Qed.

(** C10: in a run in binary-only or edges-only mode the active list is
    empty when each frame starts (the statistics show a dot for every
    frame), so that no region is ever created and no restricted scan and
    no detection is ever made. *)
Theorem C10_short_circuit_never_tracks vid only config n rois stats st :
  only.1 || only.2 = true →
  run_frames vid only config n = Ok ((rois, stats), st) →
  rois = [] ∧
  stats = replicate n StatDot ∧
  heap st = [] ∧
  Forall (λ e, tracking_call e = false) (trace st).
Proof.
  intros Hmode. revert rois stats st.
  induction n as [|n IH]; intros rois stats st Hrun.
  - unfold run_frames in Hrun. simpl in Hrun. inv_run. simpl.
    repeat split. constructor.
  - rewrite run_frames_S in Hrun.
    destruct (run_frames vid only config n) as [[[rois0 stats0] st0]|e];
      [|done].
    destruct (IH _ _ _ eq_refl) as (-> & -> & Hheap & Htrace).
    apply frame_step_Ok in Hrun as [Hrun ->].
    apply _process_short_circuit in Hrun as (-> & Hh & evs & Ht & Hevs).
    + split; [done|]. split; [|split].
      * change (stat_of []) with StatDot.
        change [StatDot] with (replicate 1 StatDot).
        rewrite <- replicate_add. f_equal. lia.
      * by rewrite Hh.
      * rewrite Ht. apply Forall_app. by split.
    + destruct (process_pipe_flags only config) as [-> ->].
      destruct only as [b e]. simpl in *. by destruct b, e.
Qed.
End Modes.

Section FullScan.
Context {K : Type} `{Countable K}.
Context `{VideoLib} `{Skimage} `{Pixel Z} `{Pixel Color}.
Implicit Types (st : State) (pipe : Pipeline K) (frame : Img Color).
Implicit Types (roi : ROI) (rois new_rois : list nat) (pois : Pois K).

(** The loop over the carried-in regions only appends to the new list, and
    it leaves alone the regions that the frame has created before it. *)
Lemma roi_loop_keeps frame i pipe w h rois found st1 res st2 (n0 : nat) :
  Forall (λ r, (r < n0)%nat) rois →
  for_each rois (roi_step frame i pipe w h) found st1 = Ok (res, st2) →
  (∃ rest, res = found ++ rest) ∧
  ∀ q obj, (n0 ≤ q)%nat → heap st1 !! q = Some obj → heap st2 !! q = Some obj.
Proof.
  intros Hst Hloop.
  assert ((∃ rest, found = found ++ rest) ∧
          ∀ q obj, (n0 ≤ q)%nat → heap st1 !! q = Some obj →
                   heap st1 !! q = Some obj) as Hstart.
  { split; [|done]. exists []. by rewrite app_nil_r. }
  revert Hstart Hloop.
  apply (for_each_inv
    (λ acc s, (∃ rest, acc = found ++ rest) ∧
              ∀ q obj, (n0 ≤ q)%nat → heap st1 !! q = Some obj →
                       heap s !! q = Some obj)).
  intros x acc s acc' s' Hx [[rest ->] Hkeep] Hstep.
  rewrite Forall_forall in Hst. specialize (Hst _ Hx).
  apply roi_step_heap in Hstep as (roi & Hroi & Hcases).
  destruct Hcases as
    [(_ & -> & ->)|[(_ & -> & ->)|(new & _ & -> & Hres)]].
  - split; [by exists rest|done].
  - split; [exists (rest ++ [x]); by rewrite app_assoc|].
    intros q obj Hq Hobj. rewrite list_lookup_insert_ne by lia. by apply Hkeep.
  - split.
    + destruct Hres as [->| ->]; [by exists rest|].
      eexists (rest ++ [_]). by rewrite app_assoc.
    + intros q obj Hq Hobj. apply lookup_app_l_Some. by apply Hkeep.
Qed.

(** C3 (as the code has it): when a frame makes the full scan with all
    stages, every detection of the scan becomes a region of full health
    that is in the new list of the frame, at the place of the detection:
    no detection is filtered out, neither against another detection of the
    scan nor against a carried-in region. *)
Theorem C3_full_scan_keeps_all i pipe rois st new_rois st' :
  _process i pipe rois st = Ok (new_rois, st') →
  rescans i rois = true →
  pipe_binary pipe = false →
  pipe_edges pipe = false →
  well_stored (heap st) rois →
  ∃ frame rest,
    frame_at (buf_original (buf st)) i = Ok frame ∧
    let segments := pipe_binarize pipe frame in
    let found := pipe_detect pipe (pipe_edge pipe segments) segments in
    new_rois = seq (length (heap st)) (length found.1) ++ rest ∧
    ∀ k b, found.1 !! k = Some b →
      ∃ py px,
        _get_vertices b.1 found.2 = Ok (py, px) ∧
        heap st' !! (length (heap st) + k)%nat =
          Some (ROI_init (extent (buf st)).1 (extent (buf st)).2
                  b.2.1 b.2.2 py px ROI_LIFESPAN).
Proof.
  intros Hrun Hre Hb He Hst.
  apply _process_Ok in Hrun as
    (frame & found & st1 & st2 & Hframe & Hfull & Hloop & Hh & _).
  rewrite Hre in Hfull.
  apply _scan_full_Ok in Hfull as (bin & _ & Hrest).
  rewrite Hb, He in Hrest. simpl in Hrest. destruct Hrest as (ed & _ & Hrest).
  apply _find_rois_Ok in Hrest as (objs & Hobjs & -> & ->). simpl in *.
  apply (roi_loop_keeps _ _ _ _ _ _ _ _ _ _ (length (heap st))) in Hloop
    as [[rest ->] Hkeep]; [|exact Hst].
  exists frame, rest. split; [done|]. split; [done|].
  intros k b Hk.
  destruct (Forall2_lookup_l _ _ _ _ _ Hobjs Hk) as (obj & Hobj & py & px & Hv & ->).
  exists py, px. split; [done|]. rewrite Hh. apply Hkeep; [lia|].
  simpl. rewrite lookup_app_r by lia. by rewrite Nat.add_comm, Nat.add_sub.
Qed.
End FullScan.

Section Restricted.
Context {K : Type} `{Countable K}.
Context `{VideoLib} `{Skimage} `{Pixel Z} `{Pixel Color}.
Implicit Types (st : State) (pipe : Pipeline K) (frame : Img Color).
Implicit Types (roi : ROI) (rois new_rois : list nat) (pois : Pois K).

(** One stage of the restricted scan: the result is written into the
    window of frame [i], then the marker is stamped on that frame. *)
Lemma write_and_stamp (arr arr1 arr2 : Video Z) i roi (src : Img Z) :
  assign_slice arr i (r0 roi) (r1 roi) (c0 roi) (c1 roi) src = Ok arr1 →
  _draw_roi arr1 i roi 255 = Ok arr2 →
  ∃ px px',
    v_frames arr !! i = Some px ∧
    v_frames arr2 = <[i := px']> (v_frames arr) ∧
    ∀ row col,
      if stamped (v_h arr) (v_w arr) roi row col
      then px' row col = 255 ∨ px' row col = px_decay 255 (health roi)
      else px' row col =
           write_window
             (window (v_h arr) (v_w arr) (r0 roi) (r1 roi) (c0 roi) (c1 roi))
             src px row col.
Proof.
  intros Hw Hd.
  apply assign_slice_Ok in Hw as (Hh1 & Hw1 & px & Hpx & Hf1).
  apply _draw_roi_Ok in Hd as (_ & _ & px1 & px' & Hpx1 & Hf2 & Hstamp).
  pose proof (lookup_lt_Some _ _ _ Hpx) as Hlt.
  rewrite Hh1, Hw1 in Hstamp.
  rewrite Hf1, list_lookup_insert_eq in Hpx1 by done. injection Hpx1 as <-.
  rewrite Hf1, list_insert_insert_eq in Hf2.
  by exists px, px'.
Qed.

(** C7 (as the code has it): a restricted scan calls binarize on the
    window of the raw frame, writes the result into the window of the
    binary frame and stamps the marker on that frame; it then calls edge
    on the window read back from the stamped binary frame, writes and
    stamps the edges frame likewise, and calls detect on the windows read
    back from the two stamped frames.  Outside the stamped pixels the
    frames hold the pipeline results inside the window and their old
    content outside of it; nothing else changes in the buffer. *)
Theorem C7_restricted_scan_effects frame i pipe r st res st' :
  _scan_roi frame i pipe r st = Ok (res, st') →
  ∃ roi seg e bpx bpx' epx epx',
    heap st !! r = Some roi ∧
    let sub := img_slice frame (r0 roi) (r1 roi) (c0 roi) (c1 roi) in
    let bin0 := buf_binary (buf st) in
    let ed0 := buf_edges (buf st) in
    trace st' = trace st ++
      [EvScanRoi i r; EvBinarize sub; EvEdge seg; EvDetect e seg] ∧
    video_slice (buf_binary (buf st')) i (r0 roi) (r1 roi) (c0 roi) (c1 roi)
      = Ok seg ∧
    video_slice (buf_edges (buf st')) i (r0 roi) (r1 roi) (c0 roi) (c1 roi)
      = Ok e ∧
    buf_original (buf st') = buf_original (buf st) ∧
    v_frames bin0 !! i = Some bpx ∧
    v_frames (buf_binary (buf st')) = <[i := bpx']> (v_frames bin0) ∧
    v_frames ed0 !! i = Some epx ∧
    v_frames (buf_edges (buf st')) = <[i := epx']> (v_frames ed0) ∧
    ∀ row col,
      (if stamped (v_h bin0) (v_w bin0) roi row col
       then bpx' row col = 255 ∨ bpx' row col = px_decay 255 (health roi)
       else bpx' row col =
            write_window
              (window (v_h bin0) (v_w bin0) (r0 roi) (r1 roi) (c0 roi) (c1 roi))
              (pipe_binarize pipe sub) bpx row col) ∧
      (if stamped (v_h ed0) (v_w ed0) roi row col
       then epx' row col = 255 ∨ epx' row col = px_decay 255 (health roi)
       else epx' row col =
            write_window
              (window (v_h ed0) (v_w ed0) (r0 roi) (r1 roi) (c0 roi) (c1 roi))
              (pipe_edge pipe seg) epx row col).
Proof.
  intros Hrun.
  apply _scan_roi_Ok in Hrun as
    (roi & bin1 & bin & seg & ed1 & ed & e &
     Hroi & Hb1 & Hb2 & Hseg & He1 & He2 & He & _ & ->).
  destruct (write_and_stamp _ _ _ _ _ _ Hb1 Hb2) as (bpx & bpx' & Hbpx & Hbf & Hbs).
  destruct (write_and_stamp _ _ _ _ _ _ He1 He2) as (epx & epx' & Hepx & Hef & Hes).
  exists roi, seg, e, bpx, bpx', epx, epx'. simpl.
  repeat (split; [done|]). intros row col. split; [apply Hbs|apply Hes].
Qed.
End Restricted.

Section ScriptFacts.
Context {K Config : Type} `{Backend K Config} `{World Config}.
Context `{VideoLib} `{Skimage} `{Pixel Z} `{Pixel Color}.

Lemma parse_args_rejects ns :
  (binary ns && edges ns) || (save_all ns && (binary ns || edges ns)) = true →
  parse_args ns = Raise (SystemExit 2).
Proof.
  unfold parse_args. destruct (binary ns && edges ns); [done|]. simpl.
  by intros ->.
Qed.

Lemma load_rejects_depth fname depth vid :
  vread fname = Ok (depth, vid) →
  depth ≠ 3 →
  load fname = Raise (SystemExit 2).
Proof.
  unfold load. intros -> Hd. simpl. apply Z.eqb_neq in Hd. by rewrite Hd.
Qed.

(** With a configuration file that has the section, the check of the
    channel depth is reached and ends the run with status 2. *)
Lemma main_rejects_depth args path more depth vid :
  config args = Some (path :: more) →
  cfg_has_options (cfg_read path) = true →
  vread (f_in args) = Ok (depth, vid) →
  depth ≠ 3 →
  exit_status (main (K := K) args) = 2.
Proof.
  intros Hc Ho Hv Hd. unfold main, read_config. rewrite Hc, Ho. simpl.
  by rewrite (load_rejects_depth _ _ _ Hv Hd).
Qed.

(** C9 (what the code does): the two forbidden combinations of flags end
    the script with status 2; but when no configuration file is given,
    [main] fails on [len(args.config)] before it loads the video, so that
    the run ends with status 1 whatever the video is. *)
Theorem C9_exit_status ns :
  (binary ns && edges ns = true → exit_status (script (K := K) ns) = 2) ∧
  (save_all ns && (binary ns || edges ns) = true →
     exit_status (script (K := K) ns) = 2) ∧
  (parse_args ns = Ok ns → config ns = None →
     script (K := K) ns = Raise TypeError ∧
     exit_status (script (K := K) ns) = 1).
Proof.
  split; [|split].
  - intros Hf. unfold script. rewrite parse_args_rejects; [done|].
    by rewrite Hf.
  - intros Hf. unfold script. rewrite parse_args_rejects; [done|].
    rewrite Hf. apply orb_true_r.
  - intros Hp Hc. unfold script. rewrite Hp. simpl.
    unfold main, read_config. by rewrite Hc.
Qed.
End ScriptFacts.

(** * Further properties of the code *)

Section ScriptMore.
Context {K Config : Type} `{Backend K Config} `{World Config}.
Context `{VideoLib} `{Skimage} `{Pixel Z} `{Pixel Color}.

Lemma string_length_app (s1 s2 : string) :
  String.length (s1 +:+ s2) = (String.length s1 + String.length s2)%nat.
Proof. induction s1 as [|c s1 IH]; simpl; [done|]. by rewrite IH. Qed.

(** the two parts that [rsplit_dot] returns, joined by a dot, are the name *)
Lemma rsplit_dot_join (s stem ext : string) :
  rsplit_dot s = Some (stem, ext) → s = stem +:+ "." +:+ ext.
Proof.
  revert stem. induction s as [|c s IH]; intros stem Hs; simpl in Hs; [done|].
  destruct (rsplit_dot s) as [[stem' ext']|].
  - injection Hs as <- <-. simpl. by rewrite (IH stem' eq_refl) at 1.
  - destruct (Ascii.eqb c ".") eqn:Hc; [|done].
    injection Hs as <- <-. apply Ascii.eqb_eq in Hc. by subst c.
Qed.

Lemma tagged_length (fname tag : string) :
  String.length (tagged fname tag)
  = (String.length fname + String.length tag + 1)%nat.
Proof.
  unfold tagged. destruct (rsplit_dot fname) as [[stem ext]|] eqn:Hs.
  - pose proof (rsplit_dot_join _ _ _ Hs) as Hj.
    rewrite Hj at 1. rewrite !string_length_app. simpl. lia.
  - rewrite !string_length_app. simpl. lia.
Qed.


(** X2: with flags that [parse_args] lets through, [_save] writes the file
    [f_out] exactly once, with the edges under [--edges], the segmentation
    under [--binary] and the drawn-on original otherwise; under
    [--save-all] it writes the segmentation and the edges before it, to two
    further files whose names differ from [f_out] and from each other. *)
Theorem X2_save_outputs (b : Buffer) args :
  parse_args args = Ok args →
  (save_all args = true →
     _save b args =
       [SavedMask (tagged (f_out args) "binary") (buf_binary b);
        SavedMask (tagged (f_out args) "edges") (buf_edges b);
        SavedOriginal (f_out args) (buf_original b)]
     ∧ binary args = false ∧ edges args = false
     ∧ tagged (f_out args) "binary" ≠ f_out args
     ∧ tagged (f_out args) "edges" ≠ f_out args
     ∧ tagged (f_out args) "binary" ≠ tagged (f_out args) "edges") ∧
  (save_all args = false →
     _save b args =
       [if edges args then SavedMask (f_out args) (buf_edges b)
        else if binary args then SavedMask (f_out args) (buf_binary b)
        else SavedOriginal (f_out args) (buf_original b)]
     ∧ (binary args && edges args = false)).
Proof.
  unfold parse_args. intros Hp.
  destruct (binary args && edges args) eqn:Hbe; [done|]. simpl in Hp.
  destruct (save_all args && (binary args || edges args)) eqn:Hsa; [done|].
  split.
  - intros Hs. rewrite Hs in Hsa. simpl in Hsa.
    apply orb_false_iff in Hsa as [Hb He].
    unfold _save. rewrite Hs. repeat split; try done.
    + intros Heq. apply (f_equal String.length) in Heq.
      rewrite tagged_length in Heq. simpl in Heq. lia.
    + intros Heq. apply (f_equal String.length) in Heq.
      rewrite tagged_length in Heq. simpl in Heq. lia.
    + intros Heq. apply (f_equal String.length) in Heq.
      rewrite !tagged_length in Heq. simpl in Heq. lia.
  - intros Hs. unfold _save. rewrite Hs. split; [|done].
    by destruct (edges args), (binary args).
Qed.
End ScriptMore.

Section Locality.
Context {K : Type} `{Countable K}.
Context `{VideoLib} `{Skimage} `{Pixel Z} `{Pixel Color}.
Implicit Types (st : State) (pipe : Pipeline K) (frame : Img Color).
Implicit Types (roi : ROI) (rois new_rois : list nat) (pois : Pois K).

Lemma only_frame_refl {P} i (v : Video P) : only_frame i v v.
Proof. by repeat split. Qed.

Lemma only_frame_trans {P} i (v1 v2 v3 : Video P) :
  only_frame i v1 v2 → only_frame i v2 v3 → only_frame i v1 v3.
Proof.
  intros (Hh1 & Hw1 & Hl1 & Hf1) (Hh2 & Hw2 & Hl2 & Hf2).
  repeat split; try congruence.
  intros j Hj. by rewrite Hf2, Hf1.
Qed.

Lemma only_frame_insert {P} i (v v' : Video P) (px : Z → Z → P) :
  v_h v' = v_h v → v_w v' = v_w v →
  v_frames v' = <[i := px]> (v_frames v) →
  only_frame i v v'.
Proof.
  intros Hh Hw Hf. repeat split; try done.
  - by rewrite Hf, length_insert.
  - intros j Hj. rewrite Hf. by apply list_lookup_insert_ne.
Qed.

Lemma assign_points_local {P} (arr arr' : Video P) i pts (val : P) :
  assign_points arr i pts val = Ok arr' → only_frame i arr arr'.
Proof.
  intros Hrun. apply assign_points_Ok in Hrun as (Hh & Hw & px & _ & Hf).
  by eapply only_frame_insert.
Qed.

Lemma assign_slice_local {P} (arr arr' : Video P) i a b c d (src : Img P) :
  assign_slice arr i a b c d src = Ok arr' → only_frame i arr arr'.
Proof.
  intros Hrun. apply assign_slice_Ok in Hrun as (Hh & Hw & px & _ & Hf).
  by eapply only_frame_insert.
Qed.

Lemma assign_frame_local {P} (arr arr' : Video P) i (src : Img P) :
  assign_frame arr i src = Ok arr' → only_frame i arr arr'.
Proof.
  intros Hrun. apply assign_frame_Ok in Hrun as (Hh & Hw & px & _ & Hf).
  by eapply only_frame_insert.
Qed.

Lemma map_frame_local {P} (f : P → P) (arr arr' : Video P) i :
  map_frame f arr i = Ok arr' → only_frame i arr arr'.
Proof.
  unfold map_frame. intros Hrun. inv_run. by eapply only_frame_insert.
Qed.

Lemma _draw_roi_local {P} `{Pixel P} (arr arr' : Video P) i roi (val : P) :
  _draw_roi arr i roi val = Ok arr' → only_frame i arr arr'.
Proof.
  intros Hrun. apply _draw_roi_Ok in Hrun as (Hh & Hw & px & px' & _ & Hf & _).
  by eapply only_frame_insert.
Qed.

Lemma frame_local_refl i (b : Buffer) : frame_local i b b.
Proof. repeat split. Qed.

Lemma frame_local_trans i (b1 b2 b3 : Buffer) :
  frame_local i b1 b2 → frame_local i b2 b3 → frame_local i b1 b3.
Proof.
  intros (Ho1 & Hb1 & He1) (Ho2 & Hb2 & He2).
  split; [|split]; by eapply only_frame_trans.
Qed.

Lemma _scan_full_local frame i pipe st res st' :
  _scan_full frame i pipe st = Ok (res, st') → frame_local i (buf st) (buf st').
Proof.
  intros Hrun. apply _scan_full_Ok in Hrun as (bin & Hbin & Hrest).
  apply assign_frame_local in Hbin.
  destruct (pipe_binary pipe && negb (pipe_edges pipe)).
  { destruct Hrest as [_ ->]. simpl.
    split; [apply only_frame_refl|]. split; [done|apply only_frame_refl]. }
  destruct Hrest as (ed & Hed & Hrest). apply assign_frame_local in Hed.
  assert (frame_local i (buf st)
            (MkBuffer (buf_original (buf st)) bin ed)) as Hloc.
  { split; [apply only_frame_refl|]. by split. }
  destruct (pipe_edges pipe).
  { by destruct Hrest as [_ ->]. }
  by apply _find_rois_Ok in Hrest as (objs & _ & _ & ->).
Qed.

Lemma _scan_roi_local frame i pipe r st res st' :
  _scan_roi frame i pipe r st = Ok (res, st') → frame_local i (buf st) (buf st').
Proof.
  intros Hrun. apply _scan_roi_Ok in Hrun as
    (roi & bin1 & bin & seg & ed1 & ed & e &
     _ & Hb1 & Hb2 & _ & He1 & He2 & _ & _ & ->).
  simpl. split; [apply only_frame_refl|]. split.
  - eapply only_frame_trans; [by eapply assign_slice_local|by eapply _draw_roi_local].
  - eapply only_frame_trans; [by eapply assign_slice_local|by eapply _draw_roi_local].
Qed.

Lemma roi_step_local frame i pipe w h r new_rois st res st' :
  roi_step frame i pipe w h r new_rois st = Ok (res, st') →
  frame_local i (buf st) (buf st').
Proof.
  intros Hrun.
  apply roi_step_Ok in Hrun as (bs & pois & st1 & roi & Hscan & _ & _ & Hrest).
  apply _scan_roi_local in Hscan.
  destruct bs as [|first rest].
  - destruct (ROI_dead roi); by destruct Hrest as [_ ->].
  - by apply _merge_rois_Ok in Hrest as (? & ? & ? & ? & _ & _ & _ & _ & ->).
Qed.

Lemma draw_step_local i r (u u' : ()) st st' :
  draw_step i r u st = Ok (u', st') → frame_local i (buf st) (buf st').
Proof.
  unfold draw_step. intros Hrun. inv_run. simpl.
  split; [|split; apply only_frame_refl].
  eapply only_frame_trans; [by eapply assign_points_local|].
  by eapply _draw_roi_local.
Qed.

(** A frame step writes frame [i] of the three arrays only. *)
Lemma _process_local i pipe rois st new_rois st' :
  _process i pipe rois st = Ok (new_rois, st') →
  frame_local i (buf st) (buf st').
Proof.
  unfold _process. fold (rescans i rois). intros Hrun.
  apply bind_Ok in Hrun as (b0 & s0 & Hb0 & Hrun).
  unfold get_buf in Hb0. injection Hb0 as <- <-.
  apply bind_Ok in Hrun as (frame & s0 & Hframe & Hrun).
  apply lift_Ok in Hframe as [Hframe ->].
  destruct (extent (buf st)) as [w h].
  apply bind_Ok in Hrun as (found & s1 & Hfull & Hrun).
  apply bind_Ok in Hrun as (res & s2 & Hloop & Hrun).
  apply bind_Ok in Hrun as (b2 & s2' & Hb2 & Hrun).
  unfold get_buf in Hb2. injection Hb2 as <- <-.
  apply bind_Ok in Hrun as (orig & s2' & Horig & Hrun).
  apply lift_Ok in Horig as [Horig ->].
  apply bind_Ok in Hrun as (u0 & s3 & Hset & Hrun).
  unfold set_original in Hset. injection Hset; clear Hset; intros; subst_rhs.
  apply bind_Ok in Hrun as (u1 & s4 & Hdraw & Hrun).
  unfold mret, M_ret in Hrun. injection Hrun as <- <-.
  assert (frame_local i (buf st) (buf s1)) as Hloc1.
  { destruct (rescans i rois); inv_run;
      [by eapply _scan_full_local|apply frame_local_refl]. }
  assert (frame_local i (buf s1) (buf s2)) as Hloc2.
  { revert Hloop.
    apply (for_each_inv (λ _ s, frame_local i (buf s1) (buf s)));
      [|apply frame_local_refl].
    intros x a s a' s' _ Hs Hstep.
    eapply frame_local_trans; [exact Hs|by eapply roi_step_local]. }
  apply map_frame_local in Horig.
  revert Hdraw.
  apply (for_each_inv (λ _ s, frame_local i (buf st) (buf s))).
  - intros x a s a' s' _ Hs Hstep.
    eapply frame_local_trans; [exact Hs|by eapply draw_step_local].
  - eapply frame_local_trans; [exact Hloc1|].
    eapply frame_local_trans; [exact Hloc2|]. unfold frame_local. simpl.
    split; [exact Horig|split; apply only_frame_refl].
Qed.

(** X3: a frame step leaves every frame but frame [i] of the original, the
    binary and the edges array as it was, and changes neither a shape nor a
    number of frames. *)
Theorem X3_frame_step_is_local i pipe rois st new_rois st' :
  _process i pipe rois st = Ok (new_rois, st') →
  frame_local i (buf st) (buf st').
Proof. apply _process_local. Qed.
End Locality.

Section RawFrames.
Context {K Config : Type} `{Backend K Config}.
Context `{VideoLib} `{Skimage} `{Pixel Z} `{Pixel Color}.
Implicit Types (st : State) (vid : Video Color) (config : option Config).

Lemma raw_from_step {P} n (v0 v v' : Video P) :
  raw_from n v0 v → only_frame n v v' → raw_from (S n) v0 v'.
Proof.
  intros (Hh & Hw & Hl & Hf) (Hh' & Hw' & Hl' & Hf').
  repeat split; try congruence.
  intros j Hj. rewrite Hf' by lia. apply Hf. lia.
Qed.

(** After [n] frames the frames from [n] on are as the loop found them. *)
Lemma run_frames_raw vid only config n acc st :
  run_frames vid only config n = Ok (acc, st) →
  raw_from n vid (buf_original (buf st)) ∧
  raw_from n (zeros_like vid) (buf_binary (buf st)) ∧
  raw_from n (zeros_like vid) (buf_edges (buf st)).
Proof.
  revert acc st. induction n as [|n IH]; intros acc st Hrun.
  - unfold run_frames in Hrun. simpl in Hrun. inv_run. simpl.
    by repeat split.
  - rewrite run_frames_S in Hrun.
    destruct (run_frames vid only config n) as [[[rois0 stats0] st0]|e];
      [|done].
    destruct (IH _ _ eq_refl) as (Ho & Hb & He). destruct acc as [rois stats].
    apply frame_step_Ok in Hrun as [Hrun _].
    apply _process_local in Hrun as (Ho' & Hb' & He').
    split; [|split].
    + exact (raw_from_step _ _ _ _ Ho Ho').
    + exact (raw_from_step _ _ _ _ Hb Hb').
    + exact (raw_from_step _ _ _ _ He He').
Qed.

(** X4: in a run, the frames that the loop has not reached yet are
    untouched: after [n] frames, the original frames from [n] on are those
    of the video and the binary and edges frames from [n] on are still
    zero, so that the frame which step [n] scans is frame [n] of the video
    as it was loaded, without darkening or drawings. *)
Theorem X4_unprocessed_frames_are_raw vid only config n acc st :
  run_frames vid only config n = Ok (acc, st) →
  raw_from n vid (buf_original (buf st)) ∧
  raw_from n (zeros_like vid) (buf_binary (buf st)) ∧
  raw_from n (zeros_like vid) (buf_edges (buf st)) ∧
  frame_at (buf_original (buf st)) n = frame_at vid n.
Proof.
  intros Hrun. destruct (run_frames_raw _ _ _ _ _ _ Hrun) as (Ho & Hb & He).
  repeat (split; [done|]).
  destruct Ho as (Hh & Hw & _ & Hf). unfold frame_at.
  by rewrite Hh, Hw, Hf.
Qed.
End RawFrames.

Section ActiveList.
Context {K : Type} `{Countable K}.
Context `{VideoLib} `{Skimage} `{Pixel Z} `{Pixel Color}.
Implicit Types (st : State) (pipe : Pipeline K) (frame : Img Color).
Implicit Types (roi : ROI) (rois new_rois : list nat) (pois : Pois K).



(** The loop keeps the new list free of repetitions, when the list it
    extends and the list it runs over share no reference and have none
    twice. *)
Lemma roi_loop_NoDup frame i pipe w h rois acc st res st' :
  NoDup (acc ++ rois) →
  well_stored (heap st) (acc ++ rois) →
  for_each rois (roi_step frame i pipe w h) acc st = Ok (res, st') →
  NoDup res ∧ well_stored (heap st') res.
Proof.
  revert acc st. induction rois as [|r rois IH]; intros acc st Hnd Hws Hrun.
  - simpl in Hrun. inv_run. by rewrite app_nil_r in Hnd, Hws.
  - simpl in Hrun. apply bind_Ok in Hrun as (acc1 & st1 & Hstep & Hrun).
    apply roi_step_heap in Hstep as (roi & Hroi & Hcases).
    apply NoDup_app in Hnd as (Hacc & Hdisj & Hrois).
    apply NoDup_cons in Hrois as [Hr Hrois].
    unfold well_stored in Hws. apply Forall_app in Hws as [Hwacc Hwrois].
    apply Forall_cons in Hwrois as [Hwr Hwrois].
    assert (r ∉ acc) as Hracc.
    { intros Hin. apply (Hdisj r Hin). by left. }
    assert (∀ x, x ∈ acc → x ∉ rois) as Hdisj'.
    { intros x Hx Hin. apply (Hdisj x Hx). by right. }
    revert Hrun. apply IH.
    + destruct Hcases as
        [(_ & -> & _)|[(_ & -> & _)|(new & _ & _ & [->| ->])]].
      * apply NoDup_app. by repeat split.
      * rewrite <- app_assoc. simpl. apply NoDup_app. split; [done|].
        split; [|by apply NoDup_cons].
        intros x Hx [->|Hin]%elem_of_cons; [done|by apply (Hdisj' x)].
      * apply NoDup_app. by repeat split.
      * rewrite <- app_assoc. simpl. apply NoDup_app. split; [done|].
        rewrite Forall_forall in Hwacc, Hwrois.
        split; [|apply NoDup_cons; split; [|done]].
        -- intros x Hx [->|Hin]%elem_of_cons; [|by apply (Hdisj' x)].
           specialize (Hwacc _ Hx). simpl in Hwacc. lia.
        -- intros Hin. specialize (Hwrois _ Hin). simpl in Hwrois. lia.
    + assert ((length (heap st) ≤ length (heap st1))%nat) as Hle.
      { destruct Hcases as
          [(_ & _ & ->)|[(_ & _ & ->)|(new & _ & -> & _)]];
          rewrite ?length_insert, ?length_app; lia. }
      assert (well_stored (heap st1) acc) as Hwacc1
        by (by eapply well_stored_grow).
      assert (well_stored (heap st1) rois) as Hwrois1
        by (by eapply well_stored_grow).
      unfold well_stored. apply Forall_app. split; [|done].
      destruct Hcases as
        [(_ & -> & _)|[(_ & -> & _)|(new & _ & Hheap & [->| ->])]];
        try done.
      * apply Forall_app. split; [done|]. repeat constructor. simpl. lia.
      * apply Forall_app. split; [done|]. repeat constructor.
        rewrite Hheap, length_app. simpl. lia.
Qed.

(** A frame step that is given a list without repetitions returns one. *)
Lemma _process_NoDup i pipe rois st new_rois st' :
  NoDup rois →
  well_stored (heap st) rois →
  _process i pipe rois st = Ok (new_rois, st') →
  NoDup new_rois ∧ well_stored (heap st') new_rois.
Proof.
  intros Hnd Hws Hrun.
  apply _process_Ok in Hrun as
    (frame & found & st1 & st2 & _ & Hfull & Hloop & Hh & _).
  rewrite Hh. revert Hloop. apply roi_loop_NoDup.
  - destruct (rescans i rois).
    + apply _scan_full_heap in Hfull as (objs & _ & -> & _).
      apply NoDup_app. split; [apply NoDup_seq|]. split; [|done].
      intros x Hx%elem_of_seq Hin.
      unfold well_stored in Hws. rewrite Forall_forall in Hws.
      specialize (Hws _ Hin). simpl in Hws. lia.
    + by destruct Hfull as [-> _].
  - destruct (rescans i rois).
    + apply _scan_full_heap in Hfull as (objs & Hheap & -> & _).
      unfold well_stored. rewrite Hheap. apply Forall_app. split.
      * apply Forall_forall. intros x Hx%elem_of_seq. rewrite length_app. lia.
      * eapply well_stored_grow; [|exact Hws]. rewrite length_app. lia.
    + by destruct Hfull as [-> ->].
Qed.

(** Over a list without repetitions the loop lowers a health by one at
    most, and leaves alone the regions that are not in the list. *)
Lemma roi_loop_decay frame i pipe w h rois acc st res st' :
  NoDup rois →
  for_each rois (roi_step frame i pipe w h) acc st = Ok (res, st') →
  ∀ q roi, heap st !! q = Some roi →
    ∃ roi', heap st' !! q = Some roi' ∧
            (q ∉ rois → roi' = roi) ∧
            health roi - 1 ≤ health roi' ≤ health roi.
Proof.
  revert acc st. induction rois as [|r rois IH]; intros acc st Hnd Hrun q roi Hq.
  - simpl in Hrun. inv_run. exists roi. split; [done|]. split; [done|lia].
  - simpl in Hrun. apply bind_Ok in Hrun as (acc1 & st1 & Hstep & Hrun).
    apply NoDup_cons in Hnd as [Hr Hnd].
    apply roi_step_heap in Hstep as (rx & Hrx & Hcases).
    assert (∃ roi1, heap st1 !! q = Some roi1 ∧ (q ≠ r → roi1 = roi) ∧
                    health roi - 1 ≤ health roi1 ≤ health roi)
      as (roi1 & Hq1 & Hsame1 & Hb1).
    { destruct Hcases as
        [(_ & _ & ->)|[(_ & _ & ->)|(new & _ & -> & _)]].
      - exists roi. split; [done|]. split; [done|lia].
      - destruct (decide (q = r)) as [->|Hne].
        + assert (rx = roi) as -> by congruence.
          exists (ROI_punish roi). split.
          * apply list_lookup_insert_eq. by eapply lookup_lt_Some.
          * split; [done|]. simpl. lia.
        + exists roi. rewrite list_lookup_insert_ne by done.
          split; [done|]. split; [done|lia].
      - exists roi. split; [by apply lookup_app_l_Some|]. split; [done|lia]. }
    destruct (IH _ _ Hnd Hrun _ _ Hq1) as (roi' & Hq' & Hsame & Hb).
    exists roi'. split; [done|]. split.
    + intros Hnot. rewrite Hsame, Hsame1; [done| |].
      * intros ->. apply Hnot. by left.
      * intros Hin. apply Hnot. by right.
    + destruct (decide (q = r)) as [->|Hne].
      * rewrite (Hsame Hr). lia.
      * rewrite (Hsame1 Hne) in Hb. lia.
Qed.
End ActiveList.

Section Decay.
Context {K Config : Type} `{Backend K Config}.
Context `{VideoLib} `{Skimage} `{Pixel Z} `{Pixel Color}.
Implicit Types (st : State) (pipe : Pipeline K) (vid : Video Color).
Implicit Types (rois : list nat) (stats : list Stat) (config : option Config).

(** A frame step over a list without repetitions lowers the health of a
    region by one at most, and leaves alone the regions that are not in
    the list. *)
Lemma _process_decay i pipe rois st new_rois st' :
  NoDup rois →
  _process i pipe rois st = Ok (new_rois, st') →
  ∀ q roi, heap st !! q = Some roi →
    ∃ roi', heap st' !! q = Some roi' ∧
            (q ∉ rois → roi' = roi) ∧
            health roi - 1 ≤ health roi' ≤ health roi.
Proof.
  intros Hnd Hrun q roi Hq.
  apply _process_Ok in Hrun as
    (frame & found & st1 & st2 & _ & Hfull & Hloop & Hh & _).
  rewrite Hh. eapply roi_loop_decay; [exact Hnd|exact Hloop|].
  destruct (rescans i rois).
  - apply _scan_full_heap in Hfull as (objs & -> & _ & _).
    by apply lookup_app_l_Some.
  - by destruct Hfull as [_ ->].
Qed.

Lemma run_frames_NoDup vid only config n rois stats st :
  run_frames vid only config n = Ok ((rois, stats), st) →
  NoDup rois ∧ well_stored (heap st) rois.
Proof.
  revert rois stats st. induction n as [|n IH]; intros rois stats st Hrun.
  - unfold run_frames in Hrun. simpl in Hrun. inv_run.
    split; constructor.
  - rewrite run_frames_S in Hrun.
    destruct (run_frames vid only config n) as [[[rois0 stats0] st0]|e];
      [|done].
    destruct (IH _ _ _ eq_refl) as [Hnd Hws].
    apply frame_step_Ok in Hrun as [Hrun _].
    by eapply _process_NoDup.
Qed.

(** X6: in every run the active list holds no region twice, so that every
    region is scanned once per frame; from one frame to the next the health
    of a region falls by one at most, and a region that is not in the
    active list keeps its health and its geometry. *)
Theorem X6_linear_decay vid only config n rois stats st :
  run_frames vid only config n = Ok ((rois, stats), st) →
  NoDup rois ∧
  ∀ rois' stats' st',
    run_frames vid only config (S n) = Ok ((rois', stats'), st') →
    ∀ r roi, heap st !! r = Some roi →
      ∃ roi', heap st' !! r = Some roi' ∧
              (r ∉ rois → roi' = roi) ∧
              health roi - 1 ≤ health roi' ≤ health roi.
Proof.
  intros Hrun. destruct (run_frames_NoDup _ _ _ _ _ _ _ Hrun) as [Hnd Hws].
  split; [exact Hnd|]. intros rois' stats' st' Hnext.
  rewrite run_frames_S, Hrun in Hnext.
  apply frame_step_Ok in Hnext as [Hnext _].
  by eapply _process_decay.
Qed.
End Decay.

Section Vertices.
Context {K : Type} `{Countable K}.
Context `{VideoLib} `{Skimage} `{Pixel Z} `{Pixel Color}.
Implicit Types (st : State) (pipe : Pipeline K) (pois : Pois K).





End Vertices.

Section Outputs.
Context {K Config : Type} `{Backend K Config}.
Context `{VideoLib} `{Skimage} `{Pixel Z} `{Pixel Color}.
Implicit Types (st : State) (pipe : Pipeline K) (vid : Video Color).
Implicit Types (rois : list nat) (stats : list Stat) (config : option Config).

Lemma process_Ok vid only config b :
  process vid only config = Ok b →
  ∃ acc st, run_frames vid only config (length (v_frames vid)) = Ok (acc, st) ∧
            b = buf st.
Proof.
  unfold process. intros Hrun.
  destruct (run_frames vid only config _) as [[acc st]|e]; [|done].
  simpl in Hrun. injection Hrun as <-. by exists acc, st.
Qed.

Lemma process_of_run vid only config acc :
  returned (run_frames vid only config (length (v_frames vid))) = Some acc →
  process vid only config =
    Ok (buf (state_after (run_frames vid only config (length (v_frames vid))))).
Proof.
  unfold process.
  by destruct (run_frames vid only config _) as [[acc' st]|e].
Qed.

(** X8: the three arrays of the buffer that [process] returns have the
    height, the width and the number of frames of the video, and so has
    every array that [_save] writes. *)
Theorem X8_outputs_have_video_extent vid only config b args :
  process vid only config = Ok b →
  same_extent vid (buf_original b) ∧
  same_extent vid (buf_binary b) ∧
  same_extent vid (buf_edges b) ∧
  Forall (saved_extent vid) (_save b args).
Proof.
  intros Hrun. apply process_Ok in Hrun as (acc & st & Hrun & ->).
  apply run_frames_raw in Hrun as
    ((Hoh & How & Hol & _) & (Hbh & Hbw & Hbl & _) & (Heh & Hew & Hel & _)).
  assert (same_extent vid (buf_original (buf st))) as Ho by done.
  assert (same_extent vid (buf_binary (buf st))) as Hb.
  { unfold same_extent. rewrite Hbh, Hbw, Hbl. simpl.
    by rewrite length_replicate. }
  assert (same_extent vid (buf_edges (buf st))) as He.
  { unfold same_extent. rewrite Heh, Hew, Hel. simpl.
    by rewrite length_replicate. }
  repeat (split; [done|]). unfold _save.
  destruct (save_all args).
  { constructor; [exact Hb|]. constructor; [exact He|].
    constructor; [exact Ho|constructor]. }
  destruct (edges args); [constructor; [exact He|constructor]|].
  destruct (binary args).
  - constructor; [exact Hb|constructor].
  - constructor; [exact Ho|constructor].
Qed.

(** With a backend that reports no detection, a frame that starts with no
    region ends with none and creates none. *)
Lemma _process_without_detection i pipe st res st' :
  (∀ edges segments, (pipe_detect pipe edges segments).1 = []) →
  _process i pipe [] st = Ok (res, st') →
  res = [] ∧ heap st' = heap st.
Proof.
  intros Hnone Hrun.
  apply _process_Ok in Hrun as
    (frame & found & st1 & st2 & _ & Hfull & Hloop & -> & _).
  assert (rescans i [] = true) as Hre.
  { unfold rescans. simpl. apply orb_true_r. }
  rewrite Hre in Hfull. simpl in Hloop. inv_run.
  apply _scan_full_Ok in Hfull as (bin & _ & Hrest).
  destruct (pipe_binary pipe && negb (pipe_edges pipe)).
  { by destruct Hrest as [-> ->]. }
  destruct Hrest as (ed & _ & Hrest). destruct (pipe_edges pipe).
  { by destruct Hrest as [-> ->]. }
  rewrite Hnone in Hrest.
  apply _find_rois_Ok in Hrest as (objs & Hobjs & -> & ->).
  apply Forall2_nil_inv_l in Hobjs as ->. simpl. by rewrite app_nil_r.
Qed.

(** X9: when the backend reports no detection on any array, a run never
    tracks anything: before every frame the active list is empty (the
    statistics show a dot per frame), every frame makes the full scan, and
    no region is ever created. *)
Theorem X9_no_detection_no_region vid only config n rois stats st :
  (∀ edges segments,
     (pipe_detect (process_pipe only config) edges segments).1 = []) →
  run_frames vid only config n = Ok ((rois, stats), st) →
  rois = [] ∧
  stats = replicate n StatDot ∧
  heap st = [] ∧
  scans (trace st) = FullScan <$> seq 0 n.
Proof.
  intros Hnone. revert rois stats st.
  induction n as [|n IH]; intros rois stats st Hrun.
  - unfold run_frames in Hrun. simpl in Hrun. by inv_run.
  - rewrite run_frames_S in Hrun.
    destruct (run_frames vid only config n) as [[[rois0 stats0] st0]|e];
      [|done].
    destruct (IH _ _ _ eq_refl) as (-> & -> & Hheap & Htrace).
    apply frame_step_Ok in Hrun as [Hrun ->].
    pose proof (_process_without_detection _ _ _ _ _ Hnone Hrun) as [-> Hh].
    split; [done|]. split; [|split].
    + change (stat_of []) with StatDot.
      change [StatDot] with (replicate 1 StatDot).
      rewrite <- replicate_add. f_equal. lia.
    + by rewrite Hh.
    + apply _process_Ok in Hrun as
        (frame & found & st1 & st2 & _ & Hfull & Hloop & _ & -> & _).
      assert (rescans n [] = true) as Hre.
      { unfold rescans. simpl. apply orb_true_r. }
      rewrite Hre in Hfull. simpl in Hloop. inv_run.
      apply _scan_full_trace in Hfull as (evs & -> & Hevs).
      change (EvScanFull n :: evs) with ([EvScanFull n] ++ evs).
      rewrite !scans_app, Hevs, Htrace, seq_S, fmap_app. simpl.
      by rewrite ?app_nil_r.
Qed.
End Outputs.

(** * The statements on concrete runs *)

Section Examples.
Import Sample.
#[local] Existing Instance skimage.
#[local] Existing Instance videolib.
#[local] Existing Instance gray.
#[local] Existing Instance color.
#[local] Existing Instance backend.
#[local] Existing Instance world.

(** Frame 0 of a video with one tracked region: the full scan, then the
    restricted scan of the region. *)
Lemma C1_witness :
  ∃ evs,
    trace (state_after (_process 0 (pipe 1) [0%nat] (tracked red 30))) =
      trace (tracked red 30) ++ evs ∧
    scans evs = [FullScan 0; RoiScan 0 0] ∧
    (FullScan 0 ∈ scans evs ↔ (0 `mod` 15 = 0)%nat ∨ [0%nat] = []).
Proof.
  apply (C1_scan_schedule 0 (pipe 1) [0%nat] (tracked red 30) [1; 0]%nat).
  apply returned_Ok. vm_compute. reflexivity.
Defined.

(** The region is confirmed by a detection around (3, 3) of its window:
    the replacement has the vertices moved by (7, 7) and is appended. *)
Lemma C2_witness :
  let st1 := state_after (_scan_roi (still red) 0 (pipe 3) 0 (tracked red 30)) in
  let new_roi := ROI_init 20 20 3 3 (8, 12, 12) (10, 8, 12) ROI_LIFESPAN in
  roi_step (still red) 0 (pipe 3) 20 20 0 [] (tracked red 30) =
    Ok ([1%nat], MkState (heap st1 ++ [new_roi]) (buf st1) (trace st1))
  ∧ health new_roi = ROI_LIFESPAN
  ∧ vy new_roi = (8, 12, 12)
  ∧ vx new_roi = (10, 8, 12)
  ∧ (existsb (ROI_intersects new_roi) [] = false ↔
     Forall (λ a, ROI_intersects new_roi a = false) []).
Proof.
  cbv zeta.
  refine (C2_merge_first_detection (still red) 0 (pipe 3) 20 20 0 []
           (tracked red 30)
           (state_after (_scan_roi (still red) 0 (pipe 3) 0 (tracked red 30)))
           keys 3 3 [] triangle (region 7 13 7 13 30)
           (1, 5, 5) (3, 1, 5) [] _ _ _ _).
  - apply returned_Ok. vm_compute. reflexivity.
  - vm_compute. reflexivity.
  - vm_compute. reflexivity.
  - reflexivity.
Defined.

(** The full scan of a frame on which the backend reports two signs one
    pixel apart: both become regions of the new list, and their boxes
    intersect. *)
Lemma C3_counterexample :
  ∃ st' a b,
    _process 0 (pipe 2) [] (init_state (video 1 red)) = Ok ([0; 1]%nat, st') ∧
    heap st' !! 0%nat = Some a ∧
    heap st' !! 1%nat = Some b ∧
    ROI_intersects a b = true.
Proof.
  exists (state_after (_process 0 (pipe 2) [] (init_state (video 1 red)))).
  eexists _, _. split; [|split; [|split]].
  - apply returned_Ok. vm_compute. reflexivity.
  - vm_compute. reflexivity.
  - vm_compute. reflexivity.
  - vm_compute. reflexivity.
Defined.

Lemma C3_witness :
  ∃ frame rest,
    frame_at (buf_original (buf (init_state (video 1 red)))) 0 = Ok frame ∧
    let segments := pipe_binarize (pipe 2) frame in
    let found := pipe_detect (pipe 2) (pipe_edge (pipe 2) segments) segments in
    [0; 1]%nat = seq (length (heap (init_state (video 1 red)))) (length found.1)
                 ++ rest ∧
    ∀ k b, found.1 !! k = Some b →
      ∃ py px,
        _get_vertices b.1 found.2 = Ok (py, px) ∧
        heap (state_after (_process 0 (pipe 2) [] (init_state (video 1 red))))
          !! (length (heap (init_state (video 1 red))) + k)%nat =
          Some (ROI_init (extent (buf (init_state (video 1 red)))).1
                  (extent (buf (init_state (video 1 red)))).2
                  b.2.1 b.2.2 py px ROI_LIFESPAN).
Proof.
  apply (C3_full_scan_keeps_all 0 (pipe 2) [] (init_state (video 1 red))).
  - apply returned_Ok. vm_compute. reflexivity.
  - reflexivity.
  - reflexivity.
  - reflexivity.
  - constructor.
Defined.

(** A region whose window shows no sign: at health 30 it is punished and
    carried forward. *)
Lemma C4_witness :
  let st1 := state_after (_scan_roi (still red) 0 (pipe 1) 0 (tracked red 30)) in
  (health (region 7 13 7 13 30) ≠ 0 →
     roi_step (still red) 0 (pipe 1) 20 20 0 [] (tracked red 30) =
       Ok ([0%nat],
           MkState (<[0%nat := ROI_punish (region 7 13 7 13 30)]> (heap st1))
                   (buf st1) (trace st1))
     ∧ <[0%nat := ROI_punish (region 7 13 7 13 30)]> (heap st1) !! 0%nat
         = Some (ROI_punish (region 7 13 7 13 30))
     ∧ health (ROI_punish (region 7 13 7 13 30)) = 30 - 1)
  ∧ (health (region 7 13 7 13 30) = 0 →
     roi_step (still red) 0 (pipe 1) 20 20 0 [] (tracked red 30) = Ok ([], st1))
  ∧ (∀ j rois st0 res st0' dead,
       _process j (pipe 1) rois st0 = Ok (res, st0') →
       heap st0 !! 0%nat = Some dead →
       health dead = 0 →
       0%nat ∉ res).
Proof.
  cbv zeta.
  refine (C4_no_detection (still red) 0 (pipe 1) 20 20 0 [] (tracked red 30)
            (state_after (_scan_roi (still red) 0 (pipe 1) 0 (tracked red 30)))
            ∅ (region 7 13 7 13 30) _ _).
  - apply returned_Ok. vm_compute. reflexivity.
  - vm_compute. reflexivity.
Defined.

(** A run whose backend reports a sign on every array: frame 0 finds a
    region, and frame 1 confirms it and replaces it by a region of full
    health. *)
Lemma C5_witness :
  let run := run_frames (video 3 red) (false, false) (Some 3%nat) in
  let st := state_after (run 1%nat) in
  let st' := state_after (run 2%nat) in
  returned (run 1%nat) = Some ([0%nat], [StatDot]) ∧
  returned (run 2%nat) = Some ([1%nat], [StatDot; StatCount 1]) ∧
  health <$> heap st = [30] ∧
  health <$> heap st' = [30; 30] ∧
  Forall (λ roi, 0 ≤ health roi ≤ ROI_LIFESPAN) (heap st) ∧
  (∀ r roi, heap st !! r = Some roi →
     ∃ roi', heap st' !! r = Some roi' ∧ health roi' ≤ health roi) ∧
  (∀ r roi', (length (heap st) ≤ r)%nat → heap st' !! r = Some roi' →
     health roi' = ROI_LIFESPAN) ∧
  (∃ evs,
     trace st' = trace st ++ evs ∧
     health <$> heap st' =
       replay_health (process_pipe (false, false) (Some 3%nat)) evs
         (health <$> heap st)).
Proof.
  cbv zeta.
  assert (run_frames (video 3 red) (false, false) (Some 3%nat) 1 =
          Ok (([0%nat], [StatDot]),
              state_after (run_frames (video 3 red) (false, false) (Some 3%nat) 1)))
    as Hone by (apply returned_Ok; vm_compute; reflexivity).
  assert (run_frames (video 3 red) (false, false) (Some 3%nat) 2 =
          Ok (([1%nat], [StatDot; StatCount 1]),
              state_after (run_frames (video 3 red) (false, false) (Some 3%nat) 2)))
    as Htwo by (apply returned_Ok; vm_compute; reflexivity).
  destruct (C5_health_range _ _ _ _ _ _ _ Hone) as (Hb & Hnext & _).
  destruct (Hnext _ _ _ Htwo) as (Hdec & Hfresh & Hreplay).
  split; [vm_compute; reflexivity|]. split; [vm_compute; reflexivity|].
  split; [vm_compute; reflexivity|]. split; [vm_compute; reflexivity|].
  split; [exact Hb|]. split; [exact Hdec|]. split; [exact Hfresh|exact Hreplay].
Defined.

Lemma C6_witness :
  ∃ (py px : Vec3) new_roi,
    _get_vertices keys triangle = Ok (py, px) ∧
    heap (state_after (_merge_rois 20 20 0 (keys, (3, 3)) triangle []
                         (tracked red 30)))
      = heap (tracked red 30) ++ [new_roi] ∧
    roi_center new_roi = (3, 3) ∧
    vy new_roi = map3 (Z.add (r0 (region 7 13 7 13 30))) py ∧
    vx new_roi = map3 (Z.add (c0 (region 7 13 7 13 30))) px ∧
    (r0 new_roi, r1 new_roi, c0 new_roi, c1 new_roi)
      = bounding_box 20 20 3 3 (vy new_roi) (vx new_roi) ∧
    Forall2 (λ v' v, v' - (roi_center new_roi).1 = (v - 3) + r0 (region 7 13 7 13 30))
      (vec3_list (vy new_roi)) (vec3_list py) ∧
    Forall2 (λ v' v, v' - (roi_center new_roi).2 = (v - 3) + c0 (region 7 13 7 13 30))
      (vec3_list (vx new_roi)) (vec3_list px).
Proof.
  apply (C6_barycenter_untranslated 20 20 0 keys 3 3 triangle []
           (tracked red 30) [1%nat]).
  - apply returned_Ok. vm_compute. reflexivity.
  - reflexivity.
Defined.

(** The restricted scan of a region of full health on a dark frame: the
    scan returns, binarize gives 0 at the first pixel of the window it is
    called with, yet edge is called with the marker value 255 at that
    pixel, which the disc of the marker has put into the buffer. *)
Lemma C7_counterexample :
  let run := _scan_roi (still dark) 0 (pipe 0) 0 (tracked dark 30) in
  returned run = Some ([], ∅) ∧
  (λ sub, im_px (pipe_binarize (pipe 0) sub) 0 0)
    <$> binarize_inputs (trace (state_after run)) = [0] ∧
  (λ seg, im_px seg 0 0) <$> edge_inputs (trace (state_after run)) = [255].
Proof.
  cbv zeta. split; [|split]; vm_compute; reflexivity.
Defined.

Lemma C7_witness :
  ∃ roi seg e,
    heap (tracked dark 30) !! 0%nat = Some roi ∧
    trace (state_after (_scan_roi (still dark) 0 (pipe 0) 0 (tracked dark 30))) =
      trace (tracked dark 30) ++
      [EvScanRoi 0 0;
       EvBinarize (img_slice (still dark) (r0 roi) (r1 roi) (c0 roi) (c1 roi));
       EvEdge seg; EvDetect e seg].
Proof.
  destruct (C7_restricted_scan_effects (still dark) 0 (pipe 0) 0
              (tracked dark 30) ([], ∅)
              (state_after (_scan_roi (still dark) 0 (pipe 0) 0 (tracked dark 30))))
    as (roi & seg & e & bpx & bpx' & epx & epx' & Hroi & Ht & _).
  - apply returned_Ok. vm_compute. reflexivity.
  - exists roi, seg, e. split; [exact Hroi|exact Ht].
Defined.

(** the full scan of a frame in binary-only mode *)
Lemma C8_witness :
  let st := init_state (video 1 red) in
  let pipe := process_pipe (H0 := backend) (true, false) None in
  ∃ bin,
    assign_frame (buf_binary (buf st)) 0 (pipe_binarize pipe (still red)) = Ok bin ∧
    _scan_full (still red) 0 pipe st =
      Ok ([], MkState (heap st)
                (MkBuffer (buf_original (buf st)) bin (buf_edges (buf st)))
                (trace st ++ [EvScanFull 0; EvBinarize (still red)])).
Proof.
  cbv zeta. eexists. split; [reflexivity|].
  refine (proj1 (proj2 (C8_short_circuit_modes (still red) 0
                   (process_pipe (H0 := backend) (true, false) None)
                   (init_state (video 1 red)) _ _)) _); reflexivity.
Defined.

(** the script called with the two file names only *)
Lemma C9_witness :
  script (K := nat) plain_args = Raise TypeError ∧
  exit_status (script (K := nat) plain_args) = 1.
Proof.
  apply (proj2 (proj2 (C9_exit_status (K := nat) plain_args))); reflexivity.
Defined.

(** three frames in binary-only mode, with a backend that would report a
    sign on every array *)
Lemma C10_witness :
  @nil nat = [] ∧
  [StatDot; StatDot; StatDot] = replicate 3 StatDot ∧
  heap (state_after (run_frames (video 3 red) (true, false) (Some 3%nat) 3)) = [] ∧
  Forall (λ e, tracking_call e = false)
    (trace (state_after (run_frames (video 3 red) (true, false) (Some 3%nat) 3))).
Proof.
  apply (C10_short_circuit_never_tracks (video 3 red) (true, false)
           (Some 3%nat) 3 [] [StatDot; StatDot; StatDot]).
  - reflexivity.
  - apply returned_Ok. vm_compute. reflexivity.
Defined.
End Examples.

Section MoreExamples.
Import Sample.
#[local] Existing Instance skimage.
#[local] Existing Instance videolib.
#[local] Existing Instance gray.
#[local] Existing Instance color.
#[local] Existing Instance backend.
#[local] Existing Instance world.


Lemma X2_witness :
  let b := Buffer_init (video 1 red) in
  (save_all plain_args = true →
     _save b plain_args =
       [SavedMask (tagged (f_out plain_args) "binary") (buf_binary b);
        SavedMask (tagged (f_out plain_args) "edges") (buf_edges b);
        SavedOriginal (f_out plain_args) (buf_original b)]
     ∧ binary plain_args = false ∧ edges plain_args = false
     ∧ tagged (f_out plain_args) "binary" ≠ f_out plain_args
     ∧ tagged (f_out plain_args) "edges" ≠ f_out plain_args
     ∧ tagged (f_out plain_args) "binary" ≠ tagged (f_out plain_args) "edges") ∧
  (save_all plain_args = false →
     _save b plain_args =
       [if edges plain_args then SavedMask (f_out plain_args) (buf_edges b)
        else if binary plain_args then SavedMask (f_out plain_args) (buf_binary b)
        else SavedOriginal (f_out plain_args) (buf_original b)]
     ∧ (binary plain_args && edges plain_args = false)).
Proof.
  cbv zeta. apply (X2_save_outputs (Buffer_init (video 1 red)) plain_args).
  reflexivity.
Defined.

Lemma X3_witness :
  frame_local 0 (buf (tracked red 30))
    (buf (state_after (_process 0 (pipe 1) [0%nat] (tracked red 30)))).
Proof.
  apply (X3_frame_step_is_local 0 (pipe 1) [0%nat] (tracked red 30) [1; 0]%nat).
  apply returned_Ok. vm_compute. reflexivity.
Defined.

Lemma X4_witness :
  let st := state_after (run_frames (video 3 red) (false, false) (Some 1%nat) 2) in
  raw_from 2 (video 3 red) (buf_original (buf st)) ∧
  raw_from 2 (zeros_like (video 3 red)) (buf_binary (buf st)) ∧
  raw_from 2 (zeros_like (video 3 red)) (buf_edges (buf st)) ∧
  frame_at (buf_original (buf st)) 2 = frame_at (video 3 red) 2.
Proof.
  cbv zeta.
  refine (X4_unprocessed_frames_are_raw (video 3 red) (false, false)
            (Some 1%nat) 2 ([0%nat], [StatDot; StatCount 1]) _ _).
  apply returned_Ok. vm_compute. reflexivity.
Defined.


Lemma X6_witness :
  let st := state_after (run_frames (video 3 red) (false, false) (Some 1%nat) 2) in
  NoDup [0%nat] ∧
  ∀ rois' stats' st',
    run_frames (video 3 red) (false, false) (Some 1%nat) 3
      = Ok ((rois', stats'), st') →
    ∀ r roi, heap st !! r = Some roi →
      ∃ roi', heap st' !! r = Some roi' ∧
              (r ∉ [0%nat] → roi' = roi) ∧
              health roi - 1 ≤ health roi' ≤ health roi.
Proof.
  cbv zeta.
  refine (X6_linear_decay (video 3 red) (false, false) (Some 1%nat) 2
            [0%nat] [StatDot; StatCount 1] _ _).
  apply returned_Ok. vm_compute. reflexivity.
Defined.

Lemma X8_witness :
  let b := buf (state_after
                  (run_frames (video 2 red) (false, false) (Some 1%nat) 2)) in
  same_extent (video 2 red) (buf_original b) ∧
  same_extent (video 2 red) (buf_binary b) ∧
  same_extent (video 2 red) (buf_edges b) ∧
  Forall (saved_extent (video 2 red)) (_save b plain_args).
Proof.
  cbv zeta.
  refine (X8_outputs_have_video_extent (video 2 red) (false, false)
            (Some 1%nat) _ plain_args _).
  apply (process_of_run (video 2 red) (false, false) (Some 1%nat)
           ([0%nat], [StatDot; StatCount 1])).
  vm_compute. reflexivity.
Defined.

(** three frames with the backend that reports nothing *)
Lemma X9_witness :
  @nil nat = [] ∧
  [StatDot; StatDot; StatDot] = replicate 3 StatDot ∧
  heap (state_after (run_frames (video 3 red) (false, false) (Some 0%nat) 3)) = [] ∧
  scans (trace (state_after
                  (run_frames (video 3 red) (false, false) (Some 0%nat) 3)))
    = FullScan <$> seq 0 3.
Proof.
  apply (X9_no_detection_no_region (video 3 red) (false, false) (Some 0%nat) 3
           [] [StatDot; StatDot; StatDot]).
  - intros e s. reflexivity.
  - apply returned_Ok. vm_compute. reflexivity.
Defined.
End MoreExamples.
